(** * TMDLO: accuracy loss, consistency loss and the forward pass

    A shallow embedding of [model.py] (trusted multi-view Dirichlet learning
    with opinion fusion).  Tensors of floats are modelled over the real
    numbers: a vector is a [list R], a [views x classes] matrix is a list of
    rows together with its number of columns.  Every statement below is
    therefore a statement about the loss functions in exact real arithmetic;
    rounding of the floating-point implementation is outside the model.
    Where the reals give a strict inequality that underflow or rounding
    turns into an equality in floating point (a loss that reaches [0.0] at
    a huge evidence, a softplus that returns [0.0]), the properties of the
    accuracy loss and of the encoders are stated with the non-strict
    inequality, which both arithmetics satisfy.

    Python exceptions are modelled with an error monad ([result]); the
    library functions the source calls ([torch.sum], [F.one_hot],
    broadcasting of elementwise operators, [nn.Linear], [nn.Softplus],
    [torch.log2]) are modelled by their documented behaviour on the shapes
    the source uses. *)

From Stdlib Require Import Reals Lra Lia List Permutation ZArith Arith Bool.
Import ListNotations.

Open Scope R_scope.

(** ** Exceptions *)

Inductive error : Type :=
| IndexError          (* subscript out of range *)
| ZeroDivisionError   (* Python float divided by the int 0 *)
| RuntimeError.       (* raised by torch: shape mismatch, bad class index *)

Inductive result (A : Type) : Type :=
| Ok (a : A)
| Err (e : error).

Arguments Ok {A} a.
Arguments Err {A} e.

Definition bind {A B : Type} (r : result A) (k : A -> result B) : result B :=
  match r with
  | Ok a => k a
  | Err e => Err e
  end.

Notation "x <- r ;; k" := (bind r (fun x => k))
  (at level 61, r at next level, right associativity).

Definition is_err {A : Type} (r : result A) : Prop :=
  exists e, r = Err e.

(** [seq[i]] on a Python sequence, for [i >= 0]. *)
Definition index {A : Type} (l : list A) (i : nat) : result A :=
  match nth_error l i with
  | Some a => Ok a
  | None => Err IndexError
  end.

(** [for i in l: acc = body(acc, i)], leaving the loop at the first
    exception. *)
Fixpoint for_loop {A : Type} (l : list nat) (body : A -> nat -> result A)
  (acc : A) : result A :=
  match l with
  | [] => Ok acc
  | i :: l' => acc' <- body acc i ;; for_loop l' body acc'
  end.

(** [range(n)] *)
Definition range (n : nat) : list nat := seq 0 n.

(** ** Tensors *)

Fixpoint zipWith {A B C : Type} (f : A -> B -> C) (u : list A) (v : list B)
  : list C :=
  match u, v with
  | x :: u', y :: v' => f x y :: zipWith f u' v'
  | _, _ => []
  end.

(** [torch.sum] of a one-dimensional tensor. *)
Definition vsum (v : list R) : R := fold_right Rplus 0 v.

(** A two-dimensional tensor of shape [(length trows, ncols)]. *)
Record Tensor2 : Type := mkTensor2 {
  ncols : nat;
  trows : list (list R)
}.

Definition nrows (t : Tensor2) : nat := length (trows t).

(** Every row has [ncols] entries: the representation invariant of a
    tensor. *)
Definition wf (t : Tensor2) : Prop :=
  Forall (fun r => length r = ncols t) (trows t).

(** All entries are non-negative (what the encoders' softplus guarantees). *)
Definition nonneg (t : Tensor2) : Prop :=
  Forall (Forall (fun x => 0 <= x)) (trows t).

(** Column [j] of the tensor. *)
Definition column (t : Tensor2) (j : nat) : list R :=
  map (fun r => nth j r 0) (trows t).

(** [torch.sum(t, dim=0, keepdim=False)]: the vector of column sums. *)
Definition sum_dim0 (t : Tensor2) : list R :=
  map (fun j => vsum (column t j)) (range (ncols t)).

(** Broadcasting of two one-dimensional shapes. *)
Definition bcastable (n m : nat) : bool :=
  (n =? m)%nat || (n =? 1)%nat || (m =? 1)%nat.

Definition bcast_op (f : R -> R -> R) (u v : list R) : list R :=
  if (length u =? length v)%nat then zipWith f u v
  else match u, v with
       | [x], _ => map (f x) v
       | _, [y] => map (fun x => f x y) u
       | _, _ => []
       end.

(** An elementwise binary operator on two one-dimensional tensors. *)
Definition bcast2 (f : R -> R -> R) (u v : list R) : result (list R) :=
  if bcastable (length u) (length v) then Ok (bcast_op f u v)
  else Err RuntimeError.

(** [F.one_hot(y, num_classes=classes).float()] for a scalar label [y]:
    class values must be non-negative and smaller than [num_classes]. *)
Definition one_hot (y : Z) (classes : nat) : result (list R) :=
  if (y <? 0)%Z then Err RuntimeError
  else if (Z.of_nat classes <=? y)%Z then Err RuntimeError
  else Ok (map (fun k => if (k =? Z.to_nat y)%nat then 1 else 0)
               (range classes)).

(** [torch.log2] on positive arguments. *)
Definition log2 (x : R) : R := ln x / ln 2.

(** ** acc_loss (lines 6-22) *)

(** Lines 14-16 of [acc_loss]: the fused Dirichlet parameters, their
    strength and the fused prediction. *)
Definition fused_alpha (evidences : Tensor2) : list R :=
  map (fun x => x + 1) (sum_dim0 evidences).

Definition fused_S (evidences : Tensor2) : R :=
  vsum (fused_alpha evidences).

Definition fused_P (evidences : Tensor2) : list R :=
  map (fun x => x / fused_S evidences) (fused_alpha evidences).

Definition acc_loss (y : Z) (evidences : Tensor2) (classes : nat)
  : result R :=
  let alpha_a := fused_alpha evidences in
  let S := fused_S evidences in
  let P := fused_P evidences in
  label <- one_hot y classes ;;
  diff <- bcast2 Rminus label P ;;
  let L_err := map (fun d => d ^ 2) diff in
  let L_var := map (fun p => p * (1 - p) / (S + 1)) P in
  L <- bcast2 Rplus L_err L_var ;;
  Ok (vsum L).

(** ** con_loss (lines 25-51) *)

(** Shannon entropy (base 2) of one row. *)
Definition entropy (p : list R) : R :=
  - vsum (map (fun x => x * log2 x) p).

(** Lines 34-38: the projected probability of every view.  [a] has shape
    [(1, length a)]; [S] and [U] have shape [(views, 1)]. *)
Definition view_S (e : list R) : R := vsum (map (fun x => x + 1) e).

Definition view_B (e : list R) : list R := map (fun x => x / view_S e) e.

Definition view_U (classes : nat) (e : list R) : R :=
  INR classes / view_S e.

Definition view_P (a : list R) (classes : nat) (e : list R) : list R :=
  bcast_op Rplus (view_B e) (map (fun ak => ak * view_U classes e) a).

Definition con_P (evidences : Tensor2) (a : list R) (classes : nat)
  : result (list (list R)) :=
  if bcastable (ncols evidences) (length a)
  then Ok (map (view_P a classes) (trows evidences))
  else Err RuntimeError.

(** Lines 45-47: the excess entropy of the pair of rows [Pm], [Pv], whose
    entropies are [Hm], [Hv]. *)
Definition E_of (Pm Pv : list R) (Hm Hv : R) : R :=
  let P_mv := map (fun x => x / 2) (zipWith Rplus Pm Pv) in
  let H_mv := entropy P_mv in
  H_mv - Hm / 2 - Hv / 2.

(** The body of the inner loop (lines 44-48). *)
Definition con_inner_body (P : list (list R)) (H : list R) (m : nat)
  (sum_E : R) (v : nat) : result R :=
  if (m =? v)%nat then Ok sum_E
  else
    Pm <- index P m ;;
    Pv <- index P v ;;
    Hm <- index H m ;;
    Hv <- index H v ;;
    Ok (sum_E + E_of Pm Pv Hm Hv).

(** The body of the outer loop (lines 42-50).  With [views = 1] the inner
    loop adds nothing, [sum_E] is still the Python float [0.0], and dividing
    it by the int [0] raises. *)
Definition con_outer_body (P : list (list R)) (H : list R) (views : nat)
  (L_con : R) (m : nat) : result R :=
  sum_E <- for_loop (range views) (con_inner_body P H m) 0 ;;
  sum_E' <- (if (views - 1 =? 0)%nat then Err ZeroDivisionError
             else Ok (sum_E / INR (views - 1))) ;;
  Ok (L_con + sum_E').

Definition con_loss (evidences : Tensor2) (a : list R) (views classes : nat)
  : result R :=
  P <- con_P evidences a classes ;;
  let H := map entropy P in
  for_loop (range views) (con_outer_body P H views) 0.

(** ** The encoders (lines 98-121) *)

Definition dot (u v : list R) : R := vsum (zipWith Rmult u v).

(** [nn.Softplus()] with its defaults [beta = 1], [threshold = 20]. *)
Definition softplus (x : R) : R :=
  if Rlt_dec 20 x then x else ln (1 + exp x).

Inductive Layer : Type :=
| Linear (in_features out_features : nat) (weight : list (list R))
         (bias : list R)
| Softplus.

(** Calling a layer on a one-dimensional input. *)
Definition apply_layer (l : Layer) (x : list R) : result (list R) :=
  match l with
  | Linear in_features _ weight bias =>
      if (length x =? in_features)%nat
      then Ok (zipWith (fun w b => dot x w + b) weight bias)
      else Err RuntimeError
  | Softplus => Ok (map softplus x)
  end.

(** The parameters [nn.Linear] draws at random when it is constructed:
    entry [(j, i)] of the weight and entry [j] of the bias. *)
Record LinearInit : Type := mkLinearInit {
  w_init : nat -> nat -> R;
  b_init : nat -> R
}.

(** [nn.Linear(in_features, out_features)]: a weight of shape
    [(out_features, in_features)] and a bias of [out_features] entries. *)
Definition new_linear (p : LinearInit) (in_features out_features : nat)
  : Layer :=
  Linear in_features out_features
    (map (fun j => map (fun i => w_init p j i) (range in_features))
         (range out_features))
    (map (b_init p) (range out_features)).

Module Classifier.

(** The module list [self.fc]; [__init__] fills it with linear layers
    followed by one softplus, the weights being the model's parameters. *)
Record t : Type := mk { fc : list Layer }.

(** Lines 113-121. *)
Definition forward (c : t) (x : list R) : result (list R) :=
  l0 <- index (fc c) 0 ;;
  h <- apply_layer l0 x ;;
  for_loop (seq 1 (length (fc c) - 1))
    (fun h i => l <- index (fc c) i ;; apply_layer l h) h.

(** Lines 99-111; [p i] holds the parameters of the [i]-th linear layer.
    On an empty [classifier_dims] the subscript [num_layers - 1] is [-1] in
    Python and [0] here; both are out of range. *)
Definition init (classifier_dims : list nat) (classes : nat)
  (p : nat -> LinearInit) : result t :=
  let num_layers := length classifier_dims in
  fc <- for_loop (range (num_layers - 1))
          (fun fc i =>
             d_in <- index classifier_dims i ;;
             d_out <- index classifier_dims (i + 1) ;;
             Ok (fc ++ [new_linear (p i) d_in d_out]))
          [] ;;
  d_last <- index classifier_dims (num_layers - 1) ;;
  Ok (mk (fc ++ [new_linear (p (num_layers - 1)%nat) d_last classes;
                  Softplus])).

End Classifier.

(** [torch.ones((1, classes)) / classes]: the uniform prior. *)
Definition uniform_prior (classes : nat) : list R :=
  map (fun o => o / INR classes) (repeat 1 classes).

(** ** The model (lines 55-94) *)

Module TMDLO.

Record t : Type := mk {
  classes : nat;
  views : nat;
  lambda_con : R;
  Classifiers : list Classifier.t
}.

(** Lines 56-68; [p i] holds the parameters of the encoder of view [i]. *)
Definition init (classes views : nat) (lambda_con : R)
  (classifier_dims : list (list nat)) (p : nat -> nat -> LinearInit)
  : result t :=
  Classifiers <- for_loop (range views)
                   (fun cs i =>
                      dims <- index classifier_dims i ;;
                      c <- Classifier.init dims classes (p i) ;;
                      Ok (cs ++ [c]))
                   [] ;;
  Ok (mk classes views lambda_con Classifiers).

(** [evidences[v_num] = out]: the value is broadcast to the row. *)
Definition set_row (classes : nat) (rows : list (list R)) (v_num : nat)
  (out : list R) : result (list (list R)) :=
  if (length out =? classes)%nat then
    Ok (firstn v_num rows ++ out :: skipn (S v_num) rows)
  else match out with
       | [x] => Ok (firstn v_num rows ++ repeat x classes
                      :: skipn (S v_num) rows)
       | _ => Err RuntimeError
       end.

(** Lines 76-79. *)
Definition infer (self : t) (X : list (list R)) : result Tensor2 :=
  let zeros := repeat (repeat 0 (classes self)) (views self) in
  rows <- for_loop (range (views self))
            (fun evidences v_num =>
               c <- index (Classifiers self) v_num ;;
               x <- index X v_num ;;
               out <- Classifier.forward c x ;;
               set_row (classes self) evidences v_num out)
            zeros ;;
  Ok (mkTensor2 (classes self) rows).

(** Lines 89-93, on the evidence matrix. *)
Definition loss_of (self : t) (evidences : Tensor2) (y : Z) : result R :=
  let a := uniform_prior (classes self) in
  let loss := 0 in
  L_acc <- acc_loss y evidences (classes self) ;;
  L_con <- con_loss evidences a (views self) (classes self) ;;
  Ok (loss + (L_acc + lambda_con self * L_con)).

(** Lines 81-94. *)
Definition forward (self : t) (X : list (list R)) (y : Z) : result R :=
  evidences <- infer self X ;;
  loss_of self evidences y.

End TMDLO.

(** ** Specification-level sums *)

(** [big_sum n f] is the sum of [f k] over [0 <= k < n]. *)
Definition big_sum (n : nat) (f : nat -> R) : R := vsum (map f (range n)).

(** The accuracy loss as the specification words it: a sum over the classes
    of the squared error against the one-hot label plus the variance term. *)
Definition acc_loss_spec (y : nat) (evidences : Tensor2) (classes : nat) : R :=
  let alpha_a := fun k => vsum (column evidences k) + 1 in
  let S := big_sum classes alpha_a in
  let P := fun k => alpha_a k / S in
  let one_hot_y := fun k => if (k =? y)%nat then 1 else 0 in
  big_sum classes
    (fun k => (one_hot_y k - P k) ^ 2 + P k * (1 - P k) / (S + 1)).

(** Every entry of the matrix is zero. *)
Definition all_zero (t : Tensor2) : Prop :=
  Forall (Forall (fun x => x = 0)) (trows t).

(** The sum of [f k] over the classes [k < n] other than [y]. *)
Definition others_sum (n y : nat) (f : nat -> R) : R :=
  big_sum n (fun k => if (k =? y)%nat then 0 else f k).


(** The fused Dirichlet parameter of class [k]. *)
Definition alpha_of (ev : Tensor2) (k : nat) : R := vsum (column ev k) + 1.

(** The numerator of the closed form of the accuracy loss: it only involves
    the classes other than the label. *)
Definition acc_numerator (y classes : nat) (ev : Tensor2) : R :=
  let A := others_sum classes y (alpha_of ev) in
  let Q := others_sum classes y (fun k => alpha_of ev k * alpha_of ev k) in
  A * A + 2 * A + Q.

(** The excess entropy of two projected probabilities (lines 45-47 with
    the entropies of line 39). *)
Definition excess_entropy (p q : list R) : R :=
  E_of p q (entropy p) (entropy q).

(** Row [m] of the tensor [P] of [con_loss]. *)
Definition P_view (ev : Tensor2) (a : list R) (classes m : nat) : list R :=
  nth m (map (view_P a classes) (trows ev)) [].

(** [E_mv] for the views [m] and [v] of an evidence matrix. *)
Definition E_mv (ev : Tensor2) (a : list R) (classes m v : nat) : R :=
  excess_entropy (P_view ev a classes m) (P_view ev a classes v).

(** The consistency loss as the specification words it: for each view [m]
    the sum of [E_mv] over the other views divided by [views - 1], summed
    over [m]. *)
Definition con_loss_spec (ev : Tensor2) (a : list R) (views classes : nat)
  : R :=
  big_sum views (fun m =>
    big_sum views (fun v => if (m =? v)%nat then 0 else E_mv ev a classes m v)
    / INR (views - 1)).

(** The sum of [f m v] over the unordered pairs [v < m < n]. *)
Definition pairs_sum (n : nat) (f : nat -> nat -> R) : R :=
  big_sum n (fun m => big_sum m (fun v => f m v)).

(** The contribution of one class to the excess entropy of two rows. *)
Definition jsd_term (x y : R) : R :=
  - ((x + y) / 2 * log2 ((x + y) / 2)) + x * log2 x / 2 + y * log2 y / 2.

(** The matrix of one view whose evidence is the column sums of [ev]. *)
Definition collapse (ev : Tensor2) : Tensor2 :=
  mkTensor2 (ncols ev) [sum_dim0 ev].

(** Applying a list of layers in order. *)
Fixpoint run_layers (layers : list Layer) (h : list R) : result (list R) :=
  match layers with
  | [] => Ok h
  | l :: layers' => h' <- apply_layer l h ;; run_layers layers' h'
  end.

(** The width after layer [i] of a classifier built from [dims]: the
    configured dimensions followed by the number of classes. *)
Definition dim_at (dims : list nat) (classes i : nat) : nat :=
  nth i (dims ++ [classes]) 0%nat.

(** The linear layers [Classifier.init] builds. *)
Definition built_layers (dims : list nat) (classes : nat)
  (p : nat -> LinearInit) : list Layer :=
  map (fun i => new_linear (p i) (dim_at dims classes i)
                  (dim_at dims classes (S i)))
      (range (length dims)).

(** The classifier [Classifier.init] returns on a non-empty [dims]. *)
Definition built (dims : list nat) (classes : nat) (p : nat -> LinearInit)
  : Classifier.t :=
  Classifier.mk (built_layers dims classes p ++ [Softplus]).

(** What [infer] stores in a row for the encoder output [out]. *)
Definition stored_row (classes : nat) (out : list R) : list R :=
  if (length out =? classes)%nat then out
  else repeat (hd 0 out) classes.

(** The encoder call of line 78 for view [v_num]. *)
Definition call_view (self : TMDLO.t) (X : list (list R)) (v_num : nat)
  : result (list R) :=
  c <- index (TMDLO.Classifiers self) v_num ;;
  x <- index X v_num ;;
  Classifier.forward c x.

(** The state of the evidence tensor in [infer] before view [k] is
    processed: [views] rows of [classes] entries, the first [k] of them
    holding what the encoders returned. *)
Definition infer_inv (self : TMDLO.t) (X : list (list R)) (k : nat)
  (rows : list (list R)) : Prop :=
  length rows = TMDLO.views self
  /\ (forall v, (v < TMDLO.views self)%nat ->
       length (nth v rows []) = TMDLO.classes self)
  /\ (forall v, (v < k)%nat ->
       exists out, call_view self X v = Ok out
         /\ (length out = TMDLO.classes self \/ length out = 1%nat)
         /\ nth v rows [] = stored_row (TMDLO.classes self) out).

(** View [i] has a usable entry in [classifier_dims]. *)
Definition dims_ok (classifier_dims : list (list nat)) (i : nat) : Prop :=
  (i < length classifier_dims)%nat /\ nth i classifier_dims [] <> [].

(** The model [TMDLO.init] returns when every view has usable dimensions. *)
Definition built_model (classes views : nat) (lambda_con : R)
  (classifier_dims : list (list nat)) (p : nat -> nat -> LinearInit)
  : TMDLO.t :=
  TMDLO.mk classes views lambda_con
    (map (fun i => built (nth i classifier_dims []) classes (p i))
         (range views)).

(** Every entry of the matrix is strictly positive. *)
Definition positive (t : Tensor2) : Prop :=
  Forall (Forall (fun x => 0 < x)) (trows t).

(** The row [infer] stores for an encoder paired with its input. *)
Definition row_of (classes : nat) (cx : Classifier.t * list R) : list R :=
  match Classifier.forward (fst cx) (snd cx) with
  | Ok out => stored_row classes out
  | Err _ => []
  end.

(** The encoder returns, on its input, something [infer] can store. *)
Definition storable (classes : nat) (cx : Classifier.t * list R) : Prop :=
  exists out, Classifier.forward (fst cx) (snd cx) = Ok out
              /\ (length out = classes \/ length out = 1%nat).

(** ** Example inputs *)

Definition ev_1234 : Tensor2 := mkTensor2 2 [[1; 2]; [3; 4]].

Definition ev_zero22 : Tensor2 := mkTensor2 2 [[0; 0]; [0; 0]].

Definition ev_46 : Tensor2 := mkTensor2 2 [[4; 6]].


Definition ev_c1_1 : Tensor2 := mkTensor2 1 [[1]].

Definition ev_12 : Tensor2 := mkTensor2 2 [[1; 2]].


Definition ev_3412 : Tensor2 := mkTensor2 2 [[3; 4]; [1; 2]].

(** A two-view, two-class model whose encoders have one input feature, no
    hidden layer and zero weights. *)
Definition enc0 : Classifier.t :=
  Classifier.mk [Linear 1 2 [[0]; [0]] [0; 0]; Softplus].

Definition model22 : TMDLO.t := TMDLO.mk 2 2 (1 / 2) [enc0; enc0].

Definition ev_1212 : Tensor2 := mkTensor2 2 [[1; 2]; [1; 2]].

Definition X_one : list (list R) := [[0]].

Definition X_two : list (list R) := [[0]; [0]].

Definition X_three : list (list R) := [[0]; [0]; [7]].

(** What [enc0] returns on the feature vector [[0]]. *)
Definition out0 : list R := map softplus [dot [0] [0] + 0; dot [0] [0] + 0].

Definition ev_three_cols : Tensor2 := mkTensor2 3 [[1; 2; 3]].

(** Parameters that are all zero. *)
Definition zero_init : LinearInit := mkLinearInit (fun _ _ => 0) (fun _ => 0).

(** A second encoder, of two input features, and the two-view models that
    pair it with [enc0] in either order. *)
Definition enc2 : Classifier.t :=
  Classifier.mk [Linear 2 2 [[0; 0]; [0; 0]] [0; 0]; Softplus].

Definition model_ab : TMDLO.t := TMDLO.mk 2 2 (1 / 2) [enc0; enc2].

Definition model_ba : TMDLO.t := TMDLO.mk 2 2 (1 / 2) [enc2; enc0].

Definition X_ab : list (list R) := [[0]; [0; 0]].

Definition X_ba : list (list R) := [[0; 0]; [0]].

(** A model of a single view. *)
Definition model_one : TMDLO.t := TMDLO.mk 2 1 (1 / 2) [enc0].

(** * Lemmas *)

Section Sums.

Lemma vsum_app (u v : list R) : vsum (u ++ v) = vsum u + vsum v.
Proof.
  induction u as [|x u IH]; simpl; [lra|]. rewrite IH. lra.
Qed.

Lemma vsum_perm (u v : list R) : Permutation u v -> vsum u = vsum v.
Proof.
  induction 1; simpl; lra.
Qed.

Lemma vsum_map_ext_in {A : Type} (f g : A -> R) (l : list A) :
  (forall x, In x l -> f x = g x) -> vsum (map f l) = vsum (map g l).
Proof.
  intros H. rewrite (map_ext_in f g l H). reflexivity.
Qed.

Lemma vsum_map_plus {A : Type} (f g : A -> R) (l : list A) :
  vsum (map (fun x => f x + g x) l) = vsum (map f l) + vsum (map g l).
Proof.
  induction l as [|x l IH]; simpl; [lra|]. rewrite IH. lra.
Qed.

Lemma vsum_map_scal {A : Type} (c : R) (f : A -> R) (l : list A) :
  vsum (map (fun x => c * f x) l) = c * vsum (map f l).
Proof.
  induction l as [|x l IH]; simpl; [lra|]. rewrite IH. lra.
Qed.

Lemma vsum_map_const {A : Type} (c : R) (l : list A) :
  vsum (map (fun _ => c) l) = INR (length l) * c.
Proof.
  induction l as [|x l IH]; [simpl; lra|].
  change (length (x :: l)) with (S (length l)). rewrite S_INR.
  simpl. rewrite IH. lra.
Qed.

Lemma vsum_map_nonneg {A : Type} (f : A -> R) (l : list A) :
  (forall x, In x l -> 0 <= f x) -> 0 <= vsum (map f l).
Proof.
  induction l as [|x l IH]; simpl; intros H; [lra|].
  assert (0 <= f x) by (apply H; now left).
  assert (0 <= vsum (map f l)) by (apply IH; intros; apply H; now right).
  lra.
Qed.

Lemma vsum_map_le {A : Type} (f g : A -> R) (l : list A) :
  (forall x, In x l -> f x <= g x) -> vsum (map f l) <= vsum (map g l).
Proof.
  induction l as [|x l IH]; simpl; intros H; [lra|].
  assert (f x <= g x) by (apply H; now left).
  assert (vsum (map f l) <= vsum (map g l))
    by (apply IH; intros; apply H; now right).
  lra.
Qed.

Lemma vsum_nonneg (l : list R) : Forall (fun x => 0 <= x) l -> 0 <= vsum l.
Proof.
  induction 1; simpl; lra.
Qed.

Lemma big_sum_S (n : nat) (f : nat -> R) :
  big_sum (S n) f = big_sum n f + f n.
Proof.
  unfold big_sum, range. rewrite seq_S, map_app, vsum_app. simpl. lra.
Qed.

Lemma big_sum_ext (n : nat) (f g : nat -> R) :
  (forall k, (k < n)%nat -> f k = g k) -> big_sum n f = big_sum n g.
Proof.
  intros H. apply vsum_map_ext_in. intros k Hk.
  apply in_seq in Hk. apply H. lia.
Qed.

Lemma big_sum_plus (n : nat) (f g : nat -> R) :
  big_sum n (fun k => f k + g k) = big_sum n f + big_sum n g.
Proof. apply vsum_map_plus. Qed.

Lemma big_sum_scal (n : nat) (c : R) (f : nat -> R) :
  big_sum n (fun k => c * f k) = c * big_sum n f.
Proof. apply vsum_map_scal. Qed.

Lemma big_sum_const (n : nat) (c : R) :
  big_sum n (fun _ => c) = INR n * c.
Proof.
  unfold big_sum. rewrite vsum_map_const. unfold range.
  now rewrite length_seq.
Qed.

Lemma big_sum_nonneg (n : nat) (f : nat -> R) :
  (forall k, (k < n)%nat -> 0 <= f k) -> 0 <= big_sum n f.
Proof.
  intros H. apply vsum_map_nonneg. intros k Hk.
  apply in_seq in Hk. apply H. lia.
Qed.

(** A sum against the indicator of [y] picks the term at [y]. *)
Lemma big_sum_pick (n y : nat) (f : nat -> R) :
  (y < n)%nat ->
  big_sum n (fun k => (if (k =? y)%nat then 1 else 0) * f k) = f y.
Proof.
  induction n as [|n IH]; intros Hy; [lia|].
  rewrite big_sum_S.
  destruct (Nat.eq_dec y n) as [-> | Hne].
  - rewrite Nat.eqb_refl.
    rewrite (big_sum_ext n _ (fun _ => 0)).
    + rewrite big_sum_const. lra.
    + intros k Hk. destruct (Nat.eqb_spec k n); [lia|lra].
  - rewrite IH by lia.
    destruct (Nat.eqb_spec n y); [lia|lra].
Qed.

(** A sum of non-negative terms dominates each of its terms. *)
Lemma big_sum_ge_term (n j : nat) (f : nat -> R) :
  (forall k, (k < n)%nat -> 0 <= f k) -> (j < n)%nat -> f j <= big_sum n f.
Proof.
  induction n as [|n IH]; intros Hpos Hj; [lia|].
  rewrite big_sum_S.
  assert (0 <= f n) by (apply Hpos; lia).
  assert (0 <= big_sum n f) by (apply big_sum_nonneg; intros; apply Hpos; lia).
  destruct (Nat.eq_dec j n) as [-> | Hne]; [lra|].
  assert (f j <= big_sum n f) by (apply IH; [intros; apply Hpos|]; lia).
  lra.
Qed.

Lemma zipWith_map_range {A B C : Type} (h : A -> B -> C) (f : nat -> A)
  (g : nat -> B) (l : list nat) :
  zipWith h (map f l) (map g l) = map (fun k => h (f k) (g k)) l.
Proof.
  induction l as [|k l IH]; simpl; [reflexivity|]. now rewrite IH.
Qed.

Lemma length_zipWith {A B C : Type} (h : A -> B -> C) (u : list A)
  (v : list B) : length u = length v -> length (zipWith h u v) = length u.
Proof.
  revert v. induction u as [|x u IH]; intros [|y v] H; simpl in *;
    try reflexivity; try discriminate.
  f_equal. apply IH. now injection H.
Qed.

Lemma map_nth_range {A : Type} (l : list A) (d : A) :
  map (fun i => nth i l d) (range (length l)) = l.
Proof.
  unfold range. induction l as [|x l IH]; [reflexivity|].
  simpl. rewrite <- seq_shift, map_map. simpl. now rewrite IH.
Qed.

End Sums.

Section Fused.

Variable evidences : Tensor2.

Lemma length_sum_dim0 : length (sum_dim0 evidences) = ncols evidences.
Proof. unfold sum_dim0, range. now rewrite length_map, length_seq. Qed.

Lemma length_fused_alpha : length (fused_alpha evidences) = ncols evidences.
Proof. unfold fused_alpha. now rewrite length_map, length_sum_dim0. Qed.

Lemma fused_alpha_range :
  fused_alpha evidences =
  map (fun k => vsum (column evidences k) + 1) (range (ncols evidences)).
Proof. unfold fused_alpha, sum_dim0. now rewrite map_map. Qed.

Lemma fused_S_big_sum :
  fused_S evidences =
  big_sum (ncols evidences) (fun k => vsum (column evidences k) + 1).
Proof. unfold fused_S, big_sum. now rewrite fused_alpha_range. Qed.

Lemma fused_P_range :
  fused_P evidences =
  map (fun k => (vsum (column evidences k) + 1) / fused_S evidences)
      (range (ncols evidences)).
Proof. unfold fused_P. now rewrite fused_alpha_range, map_map. Qed.

Lemma column_nonneg (j : nat) :
  nonneg evidences -> 0 <= vsum (column evidences j).
Proof.
  unfold nonneg, column. intros H. apply vsum_map_nonneg. intros r Hr.
  rewrite Forall_forall in H. specialize (H r Hr).
  destruct (nth_in_or_default j r 0) as [Hin | ->]; [|lra].
  rewrite Forall_forall in H. now apply H.
Qed.

Lemma fused_S_ge : nonneg evidences -> INR (ncols evidences) <= fused_S evidences.
Proof.
  intros H. rewrite fused_S_big_sum.
  rewrite <- (Rmult_1_r (INR (ncols evidences))).
  rewrite <- big_sum_const. apply vsum_map_le. intros k _.
  pose proof (column_nonneg k H). lra.
Qed.

Lemma fused_S_pos :
  nonneg evidences -> (1 <= ncols evidences)%nat -> 0 < fused_S evidences.
Proof.
  intros H Hc. pose proof (fused_S_ge H).
  apply le_INR in Hc. simpl in Hc. lra.
Qed.

End Fused.

Section Broadcast.

Lemma bcast_op_same (f : R -> R -> R) (u v : list R) :
  length u = length v -> bcast_op f u v = zipWith f u v.
Proof.
  intros H. unfold bcast_op. now rewrite H, Nat.eqb_refl.
Qed.

Lemma bcast2_same (f : R -> R -> R) (u v : list R) :
  length u = length v -> bcast2 f u v = Ok (zipWith f u v).
Proof.
  intros H. unfold bcast2, bcastable.
  rewrite H, Nat.eqb_refl. simpl. now rewrite bcast_op_same.
Qed.

Lemma one_hot_ok (y : Z) (classes : nat) :
  (0 <= y < Z.of_nat classes)%Z ->
  one_hot y classes =
  Ok (map (fun k => if (k =? Z.to_nat y)%nat then 1 else 0) (range classes)).
Proof.
  intros [H0 H1]. unfold one_hot.
  destruct (Z.ltb_spec y 0); [lia|].
  destruct (Z.leb_spec (Z.of_nat classes) y); [lia|]. reflexivity.
Qed.

Lemma one_hot_err (y : Z) (classes : nat) :
  ~ (0 <= y < Z.of_nat classes)%Z -> one_hot y classes = Err RuntimeError.
Proof.
  intros H. unfold one_hot.
  destruct (Z.ltb_spec y 0); [reflexivity|].
  destruct (Z.leb_spec (Z.of_nat classes) y); [reflexivity|lia].
Qed.

End Broadcast.

(** The value [acc_loss] returns on a well-shaped call. *)
Lemma acc_loss_eq_spec (y : Z) (evidences : Tensor2) (classes : nat) :
  ncols evidences = classes ->
  (0 <= y < Z.of_nat classes)%Z ->
  acc_loss y evidences classes =
  Ok (acc_loss_spec (Z.to_nat y) evidences classes).
Proof.
  intros Hc Hy. unfold acc_loss.
  rewrite (one_hot_ok _ _ Hy). cbn [bind].
  rewrite fused_P_range, Hc.
  rewrite bcast2_same by (now rewrite !length_map).
  cbn [bind]. rewrite zipWith_map_range, !map_map.
  rewrite bcast2_same by (now rewrite !length_map).
  cbn [bind]. rewrite zipWith_map_range.
  unfold acc_loss_spec. rewrite fused_S_big_sum, Hc. reflexivity.
Qed.

(** ** A closed form of the accuracy loss *)

Section ClosedForm.

Variables (n y : nat) (alpha : nat -> R).
Hypothesis Hy : (y < n)%nat.

Let S := big_sum n alpha.
Let A := others_sum n y alpha.
Let Q := others_sum n y (fun k => alpha k * alpha k).

Lemma big_sum_split_label (f : nat -> R) :
  big_sum n f = f y + others_sum n y f.
Proof.
  unfold others_sum.
  rewrite <- (big_sum_pick n y f Hy) at 1.
  rewrite <- big_sum_plus. apply big_sum_ext. intros k _.
  destruct (k =? y)%nat; lra.
Qed.

Lemma spec_sum_closed :
  S <> 0 -> S + 1 <> 0 ->
  big_sum n (fun k =>
    ((if (k =? y)%nat then 1 else 0) - alpha k / S) ^ 2
    + alpha k / S * (1 - alpha k / S) / (S + 1))
  = (A * A + 2 * A + Q) / (S * (S + 1)).
Proof.
  intros HS HS1.
  rewrite (big_sum_ext n _
    (fun k => (if (k =? y)%nat then 1 else 0) * (1 - 2 * alpha k / S)
              + (/ (S * (S + 1)) * alpha k
                 + / (S * (S + 1)) * (alpha k * alpha k)))).
  2:{ intros k _. destruct (k =? y)%nat; field; auto. }
  rewrite !big_sum_plus, !big_sum_scal.
  rewrite (big_sum_pick n y (fun k => 1 - 2 * alpha k / S) Hy).
  fold S.
  rewrite (big_sum_split_label (fun k => alpha k * alpha k)). fold Q.
  assert (HSA : S = alpha y + A)
    by (unfold S, A; apply big_sum_split_label).
  assert (Hy2 : alpha y = S - A) by lra.
  rewrite Hy2. field. auto.
Qed.

Lemma others_nonneg (f : nat -> R) :
  (forall k, (k < n)%nat -> 0 <= f k) -> 0 <= others_sum n y f.
Proof.
  intros H. apply big_sum_nonneg. intros k Hk.
  destruct (k =? y)%nat; [lra|]. now apply H.
Qed.

Lemma strength_split : S = alpha y + A.
Proof. unfold S, A. apply big_sum_split_label. Qed.

End ClosedForm.

Section AccClosed.

Variables (y : Z) (classes : nat).
Hypothesis Hy : (0 <= y < Z.of_nat classes)%Z.

Lemma alpha_of_ge_1 (ev : Tensor2) (k : nat) : nonneg ev -> 1 <= alpha_of ev k.
Proof.
  intros H. unfold alpha_of. pose proof (column_nonneg ev k H). lra.
Qed.

Lemma fused_S_alpha_of (ev : Tensor2) :
  ncols ev = classes -> fused_S ev = big_sum classes (alpha_of ev).
Proof. intros <-. apply fused_S_big_sum. Qed.

Lemma acc_loss_closed (ev : Tensor2) :
  ncols ev = classes -> nonneg ev ->
  acc_loss y ev classes =
  Ok (acc_numerator (Z.to_nat y) classes ev
      / (fused_S ev * (fused_S ev + 1))).
Proof.
  intros Hc Hn. rewrite acc_loss_eq_spec by assumption. f_equal.
  assert (HS : 0 < fused_S ev) by (apply fused_S_pos; [assumption|lia]).
  rewrite (fused_S_alpha_of ev Hc) in *.
  unfold acc_loss_spec, acc_numerator. fold (alpha_of ev).
  apply spec_sum_closed; unfold alpha_of in HS; [clear HS; lia | lra | lra].
Qed.


Lemma fused_S_label (ev : Tensor2) :
  ncols ev = classes ->
  fused_S ev = alpha_of ev (Z.to_nat y)
               + others_sum classes (Z.to_nat y) (alpha_of ev).
Proof.
  intros Hc. rewrite (fused_S_alpha_of ev Hc).
  apply strength_split. lia.
Qed.


End AccClosed.

Section RealFacts.

Lemma div_lt_of_lt_mul (a b c : R) : 0 < c -> a < b * c -> a / c < b.
Proof.
  intros Hc H. apply (Rmult_lt_reg_r c); [assumption|].
  unfold Rdiv. rewrite Rmult_assoc, Rinv_l by lra. lra.
Qed.



End RealFacts.

(** ** Loops *)

Section Loops.

Context {A : Type}.

Lemma for_loop_ext (l : list nat) (body body' : A -> nat -> result A)
  (acc : A) :
  (forall acc i, In i l -> body acc i = body' acc i) ->
  for_loop l body acc = for_loop l body' acc.
Proof.
  revert acc. induction l as [|i l IH]; intros acc H; [reflexivity|].
  simpl. rewrite (H acc i) by now left.
  destruct (body' acc i) as [acc'|e]; [|reflexivity].
  simpl. apply IH. intros acc0 j Hj. apply H. now right.
Qed.

End Loops.

(** A loop whose body adds [g i] to the accumulator computes a sum. *)
Lemma for_loop_sum (l : list nat) (body : R -> nat -> result R)
  (g : nat -> R) (acc : R) :
  (forall acc i, In i l -> body acc i = Ok (acc + g i)) ->
  for_loop l body acc = Ok (acc + vsum (map g l)).
Proof.
  revert acc. induction l as [|i l IH]; intros acc H.
  - simpl. f_equal. lra.
  - simpl. rewrite (H acc i) by now left. simpl.
    rewrite IH by (intros; apply H; now right). f_equal. lra.
Qed.

Lemma index_nth {A : Type} (l : list A) (i : nat) (d : A) :
  (i < length l)%nat -> index l i = Ok (nth i l d).
Proof.
  intros H. unfold index.
  destruct (nth_error l i) as [a|] eqn:E.
  - f_equal. symmetry. now apply nth_error_nth.
  - apply nth_error_None in E. lia.
Qed.

Lemma index_out {A : Type} (l : list A) (i : nat) :
  (length l <= i)%nat -> index l i = Err IndexError.
Proof.
  intros H. unfold index.
  apply nth_error_None in H. now rewrite H.
Qed.

(** ** The consistency loss as a double sum *)

Section Consistency.

Lemma zipWith_Rplus_comm (p q : list R) :
  zipWith Rplus p q = zipWith Rplus q p.
Proof.
  revert q. induction p as [|x p IH]; intros [|y q]; simpl;
    try reflexivity.
  rewrite IH. f_equal. lra.
Qed.

Lemma excess_entropy_sym (p q : list R) :
  excess_entropy p q = excess_entropy q p.
Proof.
  unfold excess_entropy, E_of. rewrite zipWith_Rplus_comm. lra.
Qed.

Lemma half_sum_self (p : list R) :
  map (fun x => x / 2) (zipWith Rplus p p) = p.
Proof.
  induction p as [|x p IH]; simpl; [reflexivity|].
  rewrite IH. f_equal. lra.
Qed.

Lemma excess_entropy_diag (p : list R) : excess_entropy p p = 0.
Proof.
  unfold excess_entropy, E_of. rewrite half_sum_self. lra.
Qed.

Variables (P : list (list R)) (views : nat).
Hypothesis Hviews : (views <= length P)%nat.

Let H := map entropy P.
Let D := fun m v => excess_entropy (nth m P []) (nth v P []).

Lemma index_H (m : nat) :
  (m < length P)%nat -> index H m = Ok (entropy (nth m P [])).
Proof.
  intros Hm. unfold H.
  rewrite (index_nth _ m (entropy [])) by (now rewrite length_map).
  now rewrite (map_nth entropy).
Qed.

Lemma con_inner_body_eq (m v : nat) (sum_E : R) :
  (m < views)%nat -> (v < views)%nat ->
  con_inner_body P H m sum_E v =
  Ok (sum_E + (if (m =? v)%nat then 0 else D m v)).
Proof.
  intros Hm Hv. unfold con_inner_body.
  destruct (m =? v)%nat; [f_equal; lra|].
  rewrite (index_nth P m []), (index_nth P v []) by lia. cbn [bind].
  rewrite !index_H by lia. reflexivity.
Qed.

Lemma con_inner_loop_eq (m : nat) :
  (m < views)%nat ->
  for_loop (range views) (con_inner_body P H m) 0 =
  Ok (big_sum views (fun v => if (m =? v)%nat then 0 else D m v)).
Proof.
  intros Hm.
  rewrite (for_loop_sum _ _
             (fun v => if (m =? v)%nat then 0 else D m v)).
  - f_equal. unfold big_sum. lra.
  - intros acc v Hv. apply in_seq in Hv.
    apply con_inner_body_eq; lia.
Qed.

Lemma con_outer_body_eq (m : nat) (L_con : R) :
  (2 <= views)%nat -> (m < views)%nat ->
  con_outer_body P H views L_con m =
  Ok (L_con
      + big_sum views (fun v => if (m =? v)%nat then 0 else D m v)
        / INR (views - 1)).
Proof.
  intros H2 Hm. unfold con_outer_body.
  rewrite con_inner_loop_eq by assumption. cbn [bind].
  destruct (Nat.eqb_spec (views - 1) 0); [lia|]. reflexivity.
Qed.

Lemma con_outer_loop_eq :
  (2 <= views)%nat ->
  for_loop (range views) (con_outer_body P H views) 0 =
  Ok (big_sum views (fun m =>
        big_sum views (fun v => if (m =? v)%nat then 0 else D m v)
        / INR (views - 1))).
Proof.
  intros H2.
  rewrite (for_loop_sum _ _
    (fun m => big_sum views
                (fun v => if (m =? v)%nat then 0 else D m v)
              / INR (views - 1))).
  - f_equal. unfold big_sum. lra.
  - intros acc m Hm. apply in_seq in Hm.
    apply con_outer_body_eq; lia.
Qed.

End Consistency.

(** With fewer than two views no pair is compared: no view gives [0.0],
    one view divides by zero. *)
Lemma con_outer_loop_small (P : list (list R)) (H : list R) (views : nat) :
  (views < 2)%nat ->
  for_loop (range views) (con_outer_body P H views) 0 =
  if (views =? 0)%nat then Ok 0 else Err ZeroDivisionError.
Proof.
  intros Hv. destruct views as [|[|n]]; [reflexivity|reflexivity|lia].
Qed.

Lemma con_loss_eq_spec (ev : Tensor2) (a : list R) (views classes : nat) :
  (2 <= views)%nat -> (views <= nrows ev)%nat ->
  bcastable (ncols ev) (length a) = true ->
  con_loss ev a views classes = Ok (con_loss_spec ev a views classes).
Proof.
  intros H2 Hv Hb. unfold con_loss, con_P. rewrite Hb. cbn [bind].
  rewrite con_outer_loop_eq; [reflexivity| |assumption].
  rewrite length_map. exact Hv.
Qed.

(** Ordered pairs against unordered pairs, for a symmetric summand. *)
Lemma ordered_pairs_twice (n : nat) (f : nat -> nat -> R) :
  (forall m v, f m v = f v m) ->
  big_sum n (fun m => big_sum n (fun v => if (m =? v)%nat then 0 else f m v))
  = 2 * pairs_sum n f.
Proof.
  intros Hsym. unfold pairs_sum. induction n as [|n IH].
  - unfold big_sum; simpl. lra.
  - rewrite !big_sum_S.
    rewrite (big_sum_ext n
      (fun m => big_sum (S n) (fun v => if (m =? v)%nat then 0 else f m v))
      (fun m => big_sum n (fun v => if (m =? v)%nat then 0 else f m v)
                + f n m)).
    2:{ intros m Hm. rewrite big_sum_S.
        destruct (Nat.eqb_spec m n); [lia|]. now rewrite Hsym. }
    rewrite big_sum_plus, IH, Nat.eqb_refl.
    rewrite (big_sum_ext n (fun v => if (n =? v)%nat then 0 else f n v)
               (fun v => f n v)).
    2:{ intros v Hv. destruct (Nat.eqb_spec n v); [lia|reflexivity]. }
    change (big_sum n (fun v : nat => f n v)) with (big_sum n (f n)). lra.
Qed.

Lemma big_sum_div (n : nat) (c : R) (f : nat -> R) :
  big_sum n (fun k => f k / c) = big_sum n f / c.
Proof.
  rewrite (big_sum_ext n _ (fun k => / c * f k))
    by (intros; unfold Rdiv; lra).
  rewrite big_sum_scal. unfold Rdiv. lra.
Qed.

(** ** Permuting the views *)

Section Permute.

Lemma big_sum_nth {A : Type} (F : A -> R) (l : list A) (d : A) :
  big_sum (length l) (fun i => F (nth i l d)) = vsum (map F l).
Proof.
  unfold big_sum.
  rewrite <- (map_map (fun i => nth i l d) F), map_nth_range.
  reflexivity.
Qed.

(** Over all the rows, the double sum of [con_loss] is a sum over the
    elements of [P]. *)
Lemma double_sum_list (P : list (list R)) (c : R) :
  big_sum (length P) (fun m =>
    big_sum (length P) (fun v =>
      if (m =? v)%nat then 0
      else excess_entropy (nth m P []) (nth v P [])) / c)
  = vsum (map (fun p => vsum (map (excess_entropy p) P) / c) P).
Proof.
  rewrite <- (big_sum_nth
                (fun p => vsum (map (excess_entropy p) P) / c) P []).
  apply big_sum_ext. intros m _. f_equal.
  rewrite <- (big_sum_nth (excess_entropy (nth m P [])) P []).
  apply big_sum_ext. intros v _.
  destruct (Nat.eqb_spec m v) as [-> | _]; [|reflexivity].
  now rewrite excess_entropy_diag.
Qed.

Lemma double_sum_perm (P P' : list (list R)) (c : R) :
  Permutation P P' ->
  vsum (map (fun p => vsum (map (excess_entropy p) P) / c) P)
  = vsum (map (fun p => vsum (map (excess_entropy p) P') / c) P').
Proof.
  intros HP.
  rewrite (vsum_perm _ _
    (Permutation_map (fun p => vsum (map (excess_entropy p) P) / c) HP)).
  apply vsum_map_ext_in. intros p _. f_equal.
  apply vsum_perm. now apply Permutation_map.
Qed.

Lemma sum_dim0_perm (ev ev' : Tensor2) :
  ncols ev = ncols ev' -> Permutation (trows ev) (trows ev') ->
  sum_dim0 ev = sum_dim0 ev'.
Proof.
  intros Hc HP. unfold sum_dim0. rewrite Hc.
  apply map_ext. intros j. apply vsum_perm.
  unfold column. now apply Permutation_map.
Qed.

Lemma acc_loss_of_sums (y : Z) (classes : nat) (ev1 ev2 : Tensor2) :
  sum_dim0 ev1 = sum_dim0 ev2 ->
  acc_loss y ev1 classes = acc_loss y ev2 classes.
Proof.
  intros H. unfold acc_loss, fused_P, fused_S, fused_alpha.
  now rewrite H.
Qed.

Lemma con_loss_perm (ev ev' : Tensor2) (a : list R) (classes : nat) :
  ncols ev = ncols ev' -> Permutation (trows ev) (trows ev') ->
  con_loss ev a (nrows ev) classes = con_loss ev' a (nrows ev') classes.
Proof.
  intros Hc HP.
  assert (Hlen : nrows ev' = nrows ev)
    by (unfold nrows; symmetry; now apply Permutation_length).
  rewrite Hlen.
  unfold con_loss, con_P. rewrite <- Hc.
  destruct (bcastable (ncols ev) (length a)); [|reflexivity].
  cbn [bind].
  set (P := map (view_P a classes) (trows ev)).
  set (P' := map (view_P a classes) (trows ev')).
  assert (HPP : Permutation P P') by (now apply Permutation_map).
  assert (HnP : nrows ev = length P)
    by (unfold P, nrows; now rewrite length_map).
  assert (HnP' : nrows ev = length P')
    by (rewrite HnP; now apply Permutation_length).
  assert (HL : length P' = length P) by lia.
  rewrite HnP. clear HnP HnP' Hlen.
  destruct (le_lt_dec 2 (length P)) as [H2 | H2].
  - rewrite !con_outer_loop_eq by lia.
    f_equal. rewrite double_sum_list.
    rewrite <- HL. rewrite double_sum_list.
    now apply double_sum_perm.
  - now rewrite !con_outer_loop_small.
Qed.

Lemma sum_dim0_collapse (ev : Tensor2) : sum_dim0 (collapse ev) = sum_dim0 ev.
Proof.
  pose proof (length_sum_dim0 ev) as Hlen. unfold collapse.
  set (s := sum_dim0 ev) in *. clearbody s.
  transitivity (map (fun j => nth j s 0) (range (length s)));
    [|apply map_nth_range].
  unfold sum_dim0, column. cbn [ncols trows map].
  rewrite Hlen. apply map_ext. intros j. simpl. lra.
Qed.

End Permute.

(** ** Concavity of the entropy *)

Section Entropy.

Lemma ln_2_pos : 0 < ln 2.
Proof. pose proof ln_lt_2. lra. Qed.

Lemma ln_le_sub1 (t : R) : 0 < t -> ln t <= t - 1.
Proof.
  intros Ht. pose proof (exp_ineq1_le (ln t)) as H.
  rewrite exp_ln in H by assumption. lra.
Qed.

Lemma ln_lt_sub1 (t : R) : 0 < t -> t <> 1 -> ln t < t - 1.
Proof.
  intros Ht Hne.
  pose proof (exp_ineq1 (ln t) (ln_neq_0 t Hne Ht)) as H.
  rewrite exp_ln in H by assumption. lra.
Qed.

Lemma ln_quot (m x : R) : 0 < m -> 0 < x -> ln (m / x) = ln m - ln x.
Proof.
  intros Hm Hx. unfold Rdiv.
  rewrite ln_mult by (auto using Rinv_0_lt_compat).
  rewrite ln_Rinv by assumption. lra.
Qed.

(** [x (ln x - ln m) >= x - m], strictly unless [x = m]. *)
Lemma xln_ge (x m : R) : 0 < x -> 0 < m -> x - m <= x * (ln x - ln m).
Proof.
  intros Hx Hm.
  assert (Hq : 0 < m / x) by (now apply Rdiv_lt_0_compat).
  pose proof (ln_le_sub1 (m / x) Hq) as H.
  rewrite ln_quot in H by assumption.
  apply (Rmult_le_compat_l x) in H; [|lra].
  replace (x * (m / x - 1)) with (m - x) in H by (field; lra).
  lra.
Qed.

Lemma xln_gt (x m : R) :
  0 < x -> 0 < m -> x <> m -> x - m < x * (ln x - ln m).
Proof.
  intros Hx Hm Hne.
  assert (Hq : 0 < m / x) by (now apply Rdiv_lt_0_compat).
  assert (Hq1 : m / x <> 1).
  { intros E. apply Hne. apply (Rmult_eq_compat_r x) in E.
    unfold Rdiv in E. rewrite Rmult_assoc, Rinv_l in E by lra. lra. }
  pose proof (ln_lt_sub1 (m / x) Hq Hq1) as H.
  rewrite ln_quot in H by assumption.
  apply (Rmult_lt_compat_l x) in H; [|lra].
  replace (x * (m / x - 1)) with (m - x) in H by (field; lra).
  lra.
Qed.

Lemma jsd_term_ln (x y : R) :
  jsd_term x y =
  (x * (ln x - ln ((x + y) / 2)) + y * (ln y - ln ((x + y) / 2)))
  / 2 / ln 2.
Proof.
  unfold jsd_term, log2. pose proof ln_2_pos. field. lra.
Qed.

Lemma jsd_term_nonneg (x y : R) : 0 < x -> 0 < y -> 0 <= jsd_term x y.
Proof.
  intros Hx Hy. rewrite jsd_term_ln.
  assert (Hm : 0 < (x + y) / 2) by lra.
  pose proof (xln_ge x _ Hx Hm). pose proof (xln_ge y _ Hy Hm).
  pose proof ln_2_pos.
  apply Rmult_le_pos; [|left; now apply Rinv_0_lt_compat].
  lra.
Qed.

Lemma jsd_term_pos (x y : R) :
  0 < x -> 0 < y -> x <> y -> 0 < jsd_term x y.
Proof.
  intros Hx Hy Hne. rewrite jsd_term_ln.
  assert (Hm : 0 < (x + y) / 2) by lra.
  assert (Hxm : x <> (x + y) / 2) by lra.
  pose proof (xln_gt x _ Hx Hm Hxm). pose proof (xln_ge y _ Hy Hm).
  pose proof ln_2_pos.
  apply Rmult_lt_0_compat; [|now apply Rinv_0_lt_compat].
  lra.
Qed.

Lemma jsd_term_diag (x : R) : jsd_term x x = 0.
Proof.
  unfold jsd_term. replace ((x + x) / 2) with x by lra. lra.
Qed.

Lemma excess_entropy_terms (p q : list R) :
  length p = length q ->
  excess_entropy p q = vsum (zipWith jsd_term p q).
Proof.
  unfold excess_entropy, E_of, entropy.
  revert q. induction p as [|x p IH]; intros [|y q] Hlen;
    simpl in *; try discriminate.
  - lra.
  - injection Hlen as Hlen. specialize (IH q Hlen).
    unfold jsd_term at 1. lra.
Qed.

(** Jensen's inequality for the entropy of two positive rows, with its
    equality case. *)
Lemma excess_entropy_nonneg (p q : list R) :
  length p = length q ->
  Forall (fun x => 0 < x) p -> Forall (fun x => 0 < x) q ->
  0 <= excess_entropy p q /\ (excess_entropy p q = 0 <-> p = q).
Proof.
  intros Hlen Hp Hq. rewrite excess_entropy_terms by assumption.
  revert q Hlen Hq. induction Hp as [|x p Hx Hp IH];
    intros [|y q] Hlen Hq; simpl in *; try discriminate.
  - split; [lra|]. split; auto.
  - injection Hlen as Hlen. inversion Hq as [|? ? Hy Hq']; subst.
    destruct (IH q Hlen Hq') as [IH0 IHeq].
    pose proof (jsd_term_nonneg x y Hx Hy) as Hxy.
    split; [lra|]. split.
    + intros E.
      assert (Ez : vsum (zipWith jsd_term p q) = 0) by lra.
      assert (Et : jsd_term x y = 0) by lra.
      apply IHeq in Ez. subst q. f_equal.
      destruct (Req_dec x y) as [|Hne]; [assumption|].
      pose proof (jsd_term_pos x y Hx Hy Hne). lra.
    + intros E. injection E as -> ->.
      rewrite jsd_term_diag.
      assert (vsum (zipWith jsd_term q q) = 0) by (now apply IHeq).
      lra.
Qed.

End Entropy.

(** ** The projected probabilities under the uniform prior *)

Section Projected.

Variable classes : nat.

Lemma length_uniform_prior : length (uniform_prior classes) = classes.
Proof. unfold uniform_prior. now rewrite length_map, repeat_length. Qed.

Lemma view_S_eq (e : list R) : view_S e = vsum e + INR (length e).
Proof.
  unfold view_S. rewrite (vsum_map_plus (fun x => x) (fun _ => 1)).
  rewrite map_id, vsum_map_const. lra.
Qed.

Lemma view_S_pos (e : list R) :
  Forall (fun x => 0 <= x) e -> (1 <= length e)%nat -> 0 < view_S e.
Proof.
  intros He Hlen. rewrite view_S_eq.
  pose proof (vsum_nonneg e He).
  assert (1 <= INR (length e)) by (apply le_INR in Hlen; simpl in *; lra).
  lra.
Qed.

Lemma Forall_zipWith_pos (u v : list R) :
  Forall (fun x => 0 <= x) u -> Forall (fun x => 0 < x) v ->
  Forall (fun x => 0 < x) (zipWith Rplus u v).
Proof.
  intros Hu. revert v. induction Hu as [|x u Hx Hu IH];
    intros v Hv; simpl; [constructor|].
  destruct Hv as [|y v Hy Hv]; constructor; [lra|now apply IH].
Qed.

Lemma view_P_zip (e : list R) :
  length e = classes ->
  view_P (uniform_prior classes) classes e =
  zipWith Rplus (view_B e)
    (map (fun ak => ak * view_U classes e) (uniform_prior classes)).
Proof.
  intros Hlen. unfold view_P. apply bcast_op_same.
  unfold view_B. now rewrite !length_map, length_uniform_prior.
Qed.

Lemma length_view_P (e : list R) :
  length e = classes ->
  length (view_P (uniform_prior classes) classes e) = classes.
Proof.
  intros Hlen. rewrite view_P_zip by assumption.
  rewrite length_zipWith; unfold view_B; rewrite !length_map;
    [assumption|now rewrite length_uniform_prior].
Qed.

(** Every projected probability is positive: with no class there is no
    entry, and otherwise each entry is [(e_k + 1) / S] with [S > 0]. *)
Lemma view_P_pos (e : list R) :
  Forall (fun x => 0 <= x) e -> length e = classes ->
  Forall (fun x => 0 < x) (view_P (uniform_prior classes) classes e).
Proof.
  intros He Hlen. rewrite view_P_zip by assumption.
  destruct e as [|x e']; [constructor|].
  set (e := x :: e') in *.
  assert (H1 : (1 <= classes)%nat) by (rewrite <- Hlen; simpl; lia).
  assert (HS : 0 < view_S e)
    by (apply view_S_pos; [assumption|simpl; lia]).
  assert (Hc : 0 < INR classes) by (apply lt_0_INR; lia).
  apply Forall_zipWith_pos.
  - unfold view_B. apply Forall_map.
    apply Forall_impl with (2 := He). intros z Hz.
    apply Rmult_le_pos; [assumption|].
    left. now apply Rinv_0_lt_compat.
  - unfold uniform_prior, view_U. rewrite map_map. apply Forall_map.
    apply Forall_forall. intros o Ho. apply repeat_spec in Ho. subst o.
    apply Rmult_lt_0_compat; apply Rdiv_lt_0_compat; lra.
Qed.

End Projected.

Lemma P_view_row (ev : Tensor2) (a : list R) (classes m : nat) :
  (m < nrows ev)%nat ->
  P_view ev a classes m = view_P a classes (nth m (trows ev) []).
Proof.
  intros Hm. unfold P_view.
  rewrite (nth_indep _ [] (view_P a classes []))
    by (now rewrite length_map).
  apply map_nth.
Qed.

Lemma row_props (ev : Tensor2) (m : nat) :
  wf ev -> nonneg ev -> (m < nrows ev)%nat ->
  length (nth m (trows ev) []) = ncols ev
  /\ Forall (fun x => 0 <= x) (nth m (trows ev) []).
Proof.
  unfold wf, nonneg, nrows. intros Hwf Hn Hm.
  rewrite Forall_forall in Hwf, Hn.
  pose proof (nth_In (trows ev) [] Hm) as Hin. split; auto.
Qed.

Lemma bcastable_refl (n : nat) : bcastable n n = true.
Proof. unfold bcastable. now rewrite Nat.eqb_refl. Qed.

(** ** Errors of the forward pass *)

Section Forward.

Lemma is_err_bind {A B : Type} (r : result A) (k : A -> result B) :
  is_err r -> is_err (bind r k).
Proof. intros [e ->]. now exists e. Qed.

Lemma not_err_ok {A : Type} (a : A) : ~ is_err (Ok a).
Proof. intros [e H]. discriminate. Qed.

(** A loop that reaches an index at which the body always raises,
    raises. *)
Lemma for_loop_fails {A : Type} (l : list nat)
  (body : A -> nat -> result A) (acc : A) (i : nat) :
  In i l -> (forall acc, is_err (body acc i)) ->
  is_err (for_loop l body acc).
Proof.
  revert acc. induction l as [|j l IH]; intros acc Hin Hbody;
    [contradiction|].
  simpl. destruct (body acc j) as [acc'|e] eqn:E.
  - simpl. destruct Hin as [-> | Hin].
    + destruct (Hbody acc) as [e He]. congruence.
    + now apply IH.
  - now exists e.
Qed.

Lemma index_firstn {A : Type} (l : list A) (n i : nat) :
  (i < n)%nat -> index (firstn n l) i = index l i.
Proof.
  intros Hi. unfold index. rewrite nth_error_firstn.
  destruct (Nat.ltb_spec i n); [reflexivity|lia].
Qed.

Variable self : TMDLO.t.

Lemma infer_short (X : list (list R)) :
  (length X < TMDLO.views self)%nat -> is_err (TMDLO.infer self X).
Proof.
  intros Hlen. unfold TMDLO.infer. apply is_err_bind.
  apply for_loop_fails with (i := length X).
  - apply in_seq. lia.
  - intros acc.
    destruct (index (TMDLO.Classifiers self) (length X)) as [c|e];
      [|now exists e].
    cbn [bind]. rewrite index_out by lia. now exists IndexError.
Qed.

Lemma infer_firstn (X : list (list R)) :
  TMDLO.infer self X = TMDLO.infer self (firstn (TMDLO.views self) X).
Proof.
  unfold TMDLO.infer. f_equal. apply for_loop_ext.
  intros acc v_num Hv. apply in_seq in Hv.
  now rewrite index_firstn by lia.
Qed.

Lemma acc_loss_bad_label (y : Z) (ev : Tensor2) (classes : nat) :
  ~ (0 <= y < Z.of_nat classes)%Z ->
  acc_loss y ev classes = Err RuntimeError.
Proof.
  intros Hy. unfold acc_loss. now rewrite one_hot_err.
Qed.

End Forward.

(** ** Zero evidence and the example inputs *)

Lemma map_const_repeat {A B : Type} (c : B) (l : list A) :
  map (fun _ => c) l = repeat c (length l).
Proof.
  induction l as [|x l IH]; simpl; [reflexivity|]. now rewrite IH.
Qed.

Lemma column_all_zero (evidences : Tensor2) (j : nat) :
  all_zero evidences -> vsum (column evidences j) = 0.
Proof.
  unfold all_zero, column. intros H.
  rewrite (vsum_map_ext_in _ (fun _ => 0)).
  - rewrite vsum_map_const. lra.
  - intros r Hr. rewrite Forall_forall in H. specialize (H r Hr).
    destruct (nth_in_or_default j r 0) as [Hin | ->]; [|reflexivity].
    rewrite Forall_forall in H. now apply H.
Qed.

Lemma nonneg_ev_1234 : nonneg ev_1234.
Proof.
  unfold nonneg, ev_1234; simpl. repeat constructor; lra.
Qed.

Lemma infer_model22 (X : list (list R)) :
  firstn 2 X = X_two ->
  TMDLO.infer model22 X = Ok (mkTensor2 2 [out0; out0]).
Proof.
  intros HX. rewrite infer_firstn. change (TMDLO.views model22) with 2%nat.
  rewrite HX. reflexivity.
Qed.

Lemma loss_of_model22_ok :
  exists l, TMDLO.loss_of model22 (mkTensor2 2 [out0; out0]) 0 = Ok l.
Proof.
  unfold TMDLO.loss_of.
  rewrite acc_loss_eq_spec; [|reflexivity|simpl; lia].
  cbn [bind]. rewrite con_loss_eq_spec;
    [|simpl; lia|unfold nrows; simpl; lia|reflexivity].
  cbn [bind]. eexists. reflexivity.
Qed.

(** ** The model on small inputs *)

Example one_hot_in_range : one_hot 1 3 = Ok [0; 1; 0].
Proof. reflexivity. Qed.

Example one_hot_too_large : one_hot 2 2 = Err RuntimeError.
Proof. reflexivity. Qed.

Example one_hot_negative : one_hot (-1) 2 = Err RuntimeError.
Proof. reflexivity. Qed.

(** A [(1, 1)] evidence matrix against two classes: [P] is broadcast. *)
Example acc_loss_broadcast : acc_loss 0 ev_c1_1 2 = Ok 1.
Proof.
  unfold acc_loss, fused_P, fused_S, fused_alpha, sum_dim0, column.
  cbn. f_equal. field; lra.
Qed.

(** Three columns against two classes cannot be broadcast. *)
Example acc_loss_shape_mismatch :
  acc_loss 0 ev_three_cols 2 = Err RuntimeError.
Proof. reflexivity. Qed.

Example con_loss_no_view :
  con_loss (mkTensor2 2 []) [1 / 2; 1 / 2] 0 2 = Ok 0.
Proof. reflexivity. Qed.

Example con_loss_one_view :
  con_loss ev_12 [1 / 2; 1 / 2] 1 2 = Err ZeroDivisionError.
Proof. reflexivity. Qed.

(** More views asked for than the matrix has rows. *)
Example con_loss_views_exceed :
  con_loss ev_1234 [1 / 2; 1 / 2] 3 2 = Err IndexError.
Proof. reflexivity. Qed.

Example con_loss_prior_mismatch :
  con_loss ev_1234 [1 / 3; 1 / 3; 1 / 3] 2 2 = Err RuntimeError.
Proof. reflexivity. Qed.

(** * Claims *)

(** C1: for an evidence matrix with non-negative entries, [classes >= 2]
    columns and a label [0 <= y < classes], [acc_loss] returns the sum over
    the classes of [(one_hot(y) - P)^2 + P*(1-P)/(S+1)], with [alpha_a] the
    column sums plus one, [S] their sum and [P = alpha_a / S]; and [S] is
    positive, so the quotients are well defined. *)
Theorem C1_acc_loss_formula (y : Z) (evidences : Tensor2) (classes : nat) :
  ncols evidences = classes ->
  nonneg evidences ->
  (2 <= classes)%nat ->
  (0 <= y < Z.of_nat classes)%Z ->
  acc_loss y evidences classes =
    Ok (acc_loss_spec (Z.to_nat y) evidences classes)
  /\ 0 < fused_S evidences.
Proof.
  intros Hc Hn H2 Hy. split.
  - now apply acc_loss_eq_spec.
  - apply fused_S_pos; [assumption|lia].
Qed.

Lemma C1_acc_loss_formula_witness :
  acc_loss 1 ev_1234 2 = Ok (acc_loss_spec 1 ev_1234 2)
  /\ 0 < fused_S ev_1234.
Proof.
  apply (C1_acc_loss_formula 1 ev_1234 2).
  - reflexivity.
  - exact nonneg_ev_1234.
  - lia.
  - lia.
Defined.

(** C3: for an evidence matrix with non-negative entries and at least one
    class, the fused prediction [P = alpha_a / S] of [acc_loss] sums to one
    and all its entries are strictly positive. *)
Theorem C3_fused_P_distribution (evidences : Tensor2) :
  nonneg evidences ->
  (1 <= ncols evidences)%nat ->
  vsum (fused_P evidences) = 1
  /\ Forall (fun p => 0 < p) (fused_P evidences).
Proof.
  intros Hn Hc. pose proof (fused_S_pos evidences Hn Hc) as HS. split.
  - unfold fused_P.
    rewrite (map_ext _ (fun x => / fused_S evidences * (fun z => z) x))
      by (intros; unfold Rdiv; lra).
    rewrite vsum_map_scal, map_id. fold (fused_S evidences).
    field. lra.
  - rewrite fused_P_range. apply Forall_forall. intros p Hp.
    apply in_map_iff in Hp. destruct Hp as [k [<- _]].
    pose proof (column_nonneg evidences k Hn).
    apply Rdiv_lt_0_compat; lra.
Qed.

Lemma C3_fused_P_distribution_witness :
  vsum (fused_P ev_1234) = 1 /\ Forall (fun p => 0 < p) (fused_P ev_1234).
Proof.
  apply (C3_fused_P_distribution ev_1234).
  - exact nonneg_ev_1234.
  - simpl. lia.
Defined.

(** C5: when every entry of the evidence matrix is zero (and there is at
    least one class), the fused prediction of [acc_loss] is the uniform
    distribution, [1/classes] in every component; this holds for every
    number of views. *)
Theorem C5_zero_evidence_uniform (evidences : Tensor2) (classes : nat) :
  ncols evidences = classes ->
  (1 <= classes)%nat ->
  all_zero evidences ->
  fused_P evidences = repeat (1 / INR classes) classes.
Proof.
  intros Hc H1 Hz.
  assert (HS : fused_S evidences = INR classes).
  { rewrite fused_S_big_sum, Hc.
    rewrite (big_sum_ext _ _ (fun _ => 1)).
    - rewrite big_sum_const. lra.
    - intros k _. rewrite column_all_zero by assumption. lra. }
  rewrite fused_P_range, HS, Hc.
  rewrite (map_ext _ (fun _ => 1 / INR classes)).
  - rewrite map_const_repeat. unfold range. now rewrite length_seq.
  - intros k. rewrite column_all_zero by assumption.
    now rewrite Rplus_0_l.
Qed.

Lemma C5_zero_evidence_uniform_witness :
  fused_P ev_zero22 = repeat (1 / INR 2) 2.
Proof.
  apply (C5_zero_evidence_uniform ev_zero22 2).
  - reflexivity.
  - lia.
  - unfold all_zero, ev_zero22; simpl. repeat constructor.
Defined.

(** C6: with two views, two classes, the all-zero evidence matrix and label
    [0], [acc_loss] computes [alpha_a = [1,1]], [S = 2], [P = [1/2,1/2]] and
    returns [2*((1/2)^2 + (1/2)*(1/2)/3) = 2/3]. *)
Theorem C6_acc_loss_zero22 :
  fused_alpha ev_zero22 = [1; 1]
  /\ fused_S ev_zero22 = 2
  /\ fused_P ev_zero22 = [1 / 2; 1 / 2]
  /\ acc_loss 0 ev_zero22 2 = Ok (2 * ((1 / 2) ^ 2 + (1 / 2) * (1 / 2) / 3))
  /\ acc_loss 0 ev_zero22 2 = Ok (2 / 3).
Proof.
  assert (Ha : fused_alpha ev_zero22 = [1; 1]).
  { unfold fused_alpha, sum_dim0, column; simpl.
    f_equal; [lra|]. f_equal. lra. }
  assert (HS : fused_S ev_zero22 = 2).
  { unfold fused_S. rewrite Ha. simpl. lra. }
  assert (HP : fused_P ev_zero22 = [1 / 2; 1 / 2]).
  { unfold fused_P. rewrite HS, Ha. reflexivity. }
  assert (HL : acc_loss 0 ev_zero22 2 = Ok (2 / 3)).
  { unfold acc_loss. rewrite HP, HS. cbn. f_equal. field. }
  repeat split; try assumption.
  rewrite HL. f_equal. field.
Qed.

(** C10: [acc_loss] depends on the evidence matrix only through its column
    sums: two matrices (of any numbers of views) with the same sums over the
    views axis get the same result, error or value; in particular the
    matrix may be replaced by the single row of its column sums. *)
Theorem C10_acc_loss_column_sums (y : Z) (classes : nat) (ev1 ev2 : Tensor2) :
  sum_dim0 ev1 = sum_dim0 ev2 ->
  acc_loss y ev1 classes = acc_loss y ev2 classes
  /\ acc_loss y ev1 classes = acc_loss y (collapse ev1) classes.
Proof.
  intros H. split.
  - unfold acc_loss, fused_P, fused_S, fused_alpha. now rewrite H.
  - apply acc_loss_of_sums. symmetry. apply sum_dim0_collapse.
Qed.

Lemma C10_acc_loss_column_sums_witness :
  nrows ev_1234 <> nrows ev_46
  /\ acc_loss 1 ev_1234 2 = acc_loss 1 ev_46 2
  /\ acc_loss 1 ev_1234 2 = acc_loss 1 (collapse ev_1234) 2.
Proof.
  split.
  - unfold nrows; simpl; lia.
  - apply (C10_acc_loss_column_sums 1 2 ev_1234 ev_46).
    unfold sum_dim0, column; simpl. f_equal; [lra|]. f_equal. lra.
Defined.




(** C2: for [views >= 2], [con_loss] visits every ordered pair [(m, v)]
    with [m <> v], divides the sum of [E_mv] of each outer index [m] by
    [views - 1] and adds these quotients up over [m]; as [E_mv] is
    symmetric, this is twice the sum over the unordered pairs divided by
    [views - 1], with no other normalisation. *)
Theorem C2_con_loss_ordered_pairs (ev : Tensor2) (a : list R)
  (views classes : nat) :
  (2 <= views)%nat ->
  nrows ev = views ->
  bcastable (ncols ev) (length a) = true ->
  con_loss ev a views classes = Ok (con_loss_spec ev a views classes)
  /\ con_loss_spec ev a views classes
     = 2 * pairs_sum views (E_mv ev a classes) / INR (views - 1).
Proof.
  intros H2 Hv Hb. split.
  - apply con_loss_eq_spec; [assumption|lia|assumption].
  - unfold con_loss_spec. rewrite big_sum_div.
    rewrite ordered_pairs_twice; [reflexivity|].
    intros m v. apply excess_entropy_sym.
Qed.

Lemma C2_con_loss_ordered_pairs_witness :
  con_loss ev_1234 [1 / 2; 1 / 2] 2 2
  = Ok (con_loss_spec ev_1234 [1 / 2; 1 / 2] 2 2)
  /\ con_loss_spec ev_1234 [1 / 2; 1 / 2] 2 2
     = 2 * pairs_sum 2 (E_mv ev_1234 [1 / 2; 1 / 2] 2) / INR (2 - 1).
Proof.
  apply (C2_con_loss_ordered_pairs ev_1234 [1 / 2; 1 / 2] 2 2).
  - lia.
  - reflexivity.
  - reflexivity.
Defined.

(** C8: permuting the rows (views) of the evidence matrix changes neither
    [acc_loss] nor [con_loss], and hence not the total loss
    [L_acc + lambda_con * L_con]. *)
Theorem C8_view_permutation_invariance (self : TMDLO.t) (y : Z) (a : list R)
  (classes : nat) (ev ev' : Tensor2) :
  ncols ev = ncols ev' ->
  Permutation (trows ev) (trows ev') ->
  acc_loss y ev classes = acc_loss y ev' classes
  /\ con_loss ev a (nrows ev) classes = con_loss ev' a (nrows ev') classes
  /\ (nrows ev = TMDLO.views self ->
      TMDLO.loss_of self ev y = TMDLO.loss_of self ev' y).
Proof.
  intros Hc HP.
  assert (Hacc : forall c, acc_loss y ev c = acc_loss y ev' c).
  { intros c. apply acc_loss_of_sums. now apply sum_dim0_perm. }
  assert (Hcon : forall b c,
            con_loss ev b (nrows ev) c = con_loss ev' b (nrows ev') c).
  { intros b c. now apply con_loss_perm. }
  assert (Hlen : nrows ev' = nrows ev)
    by (unfold nrows; symmetry; now apply Permutation_length).
  repeat split; auto.
  intros Hv. unfold TMDLO.loss_of.
  rewrite Hacc. rewrite <- Hv, Hcon, Hlen. reflexivity.
Qed.

Lemma C8_view_permutation_invariance_witness :
  acc_loss 1 ev_1234 2 = acc_loss 1 ev_3412 2
  /\ con_loss ev_1234 [1 / 2; 1 / 2] (nrows ev_1234) 2
     = con_loss ev_3412 [1 / 2; 1 / 2] (nrows ev_3412) 2
  /\ (nrows ev_1234 = TMDLO.views model22 ->
      TMDLO.loss_of model22 ev_1234 1 = TMDLO.loss_of model22 ev_3412 1).
Proof.
  apply (C8_view_permutation_invariance model22 1 [1 / 2; 1 / 2] 2
           ev_1234 ev_3412).
  - reflexivity.
  - apply perm_swap.
Defined.

(** C4: for an evidence matrix with non-negative entries and the uniform
    prior [a = 1/classes], the excess entropy [E_mv] of every pair of
    distinct views is non-negative, and it is zero exactly when
    [P_m = P_v]; in particular [con_loss] returns zero when all the views
    have the same evidence vector. *)
Theorem C4_excess_entropy_nonneg (ev : Tensor2) (views classes : nat) :
  wf ev -> nonneg ev ->
  ncols ev = classes -> nrows ev = views ->
  (forall m v, (m < views)%nat -> (v < views)%nat -> m <> v ->
     0 <= E_mv ev (uniform_prior classes) classes m v
     /\ (E_mv ev (uniform_prior classes) classes m v = 0
         <-> P_view ev (uniform_prior classes) classes m
             = P_view ev (uniform_prior classes) classes v))
  /\ ((2 <= views)%nat ->
      (forall m v, (m < views)%nat -> (v < views)%nat ->
         nth m (trows ev) [] = nth v (trows ev) []) ->
      con_loss ev (uniform_prior classes) views classes = Ok 0).
Proof.
  intros Hwf Hn Hc Hv. split.
  - intros m v Hm Hv' _. unfold E_mv.
    rewrite !P_view_row by lia.
    destruct (row_props ev m Hwf Hn) as [Lm Nm]; [lia|].
    destruct (row_props ev v Hwf Hn) as [Lv Nv]; [lia|].
    rewrite Hc in Lm, Lv.
    apply excess_entropy_nonneg.
    + now rewrite !length_view_P.
    + now apply view_P_pos.
    + now apply view_P_pos.
  - intros H2 Hsame.
    rewrite con_loss_eq_spec;
      [|assumption|lia|rewrite length_uniform_prior, Hc; apply bcastable_refl].
    f_equal. unfold con_loss_spec.
    rewrite (big_sum_ext views _ (fun _ => 0)).
    + rewrite big_sum_const. lra.
    + intros m Hm.
      rewrite (big_sum_ext views _ (fun _ => 0)).
      * rewrite big_sum_const. unfold Rdiv. lra.
      * intros v Hv'. destruct (m =? v)%nat; [reflexivity|].
        unfold E_mv. rewrite !P_view_row by lia.
        rewrite (Hsame m v Hm Hv'). apply excess_entropy_diag.
Qed.

Lemma C4_excess_entropy_nonneg_witness :
  (0 <= E_mv ev_1212 (uniform_prior 2) 2 0 1
   /\ (E_mv ev_1212 (uniform_prior 2) 2 0 1 = 0
       <-> P_view ev_1212 (uniform_prior 2) 2 0
           = P_view ev_1212 (uniform_prior 2) 2 1))
  /\ con_loss ev_1212 (uniform_prior 2) 2 2 = Ok 0.
Proof.
  assert (Hwf : wf ev_1212)
    by (unfold wf, ev_1212; simpl; repeat constructor).
  assert (Hn : nonneg ev_1212)
    by (unfold nonneg, ev_1212; simpl; repeat constructor; lra).
  destruct (C4_excess_entropy_nonneg ev_1212 2 2 Hwf Hn eq_refl eq_refl)
    as [Hpair Hsame].
  split.
  - apply Hpair; lia.
  - apply Hsame; [lia|].
    intros [|[|m]] [|[|v]] Hm Hv; try lia; reflexivity.
Defined.

(** C9 (as the code has it): [forward] performs no shape check of its own.
    An [X] with fewer than [views] entries makes [infer], and so [forward],
    raise; entries of [X] beyond the first [views] are never read, so
    [forward] returns on [X] what it returns on its first [views] entries;
    a label outside [[0, classes)] makes [forward] raise, and when the
    encoders succeed the error is the one [F.one_hot] raises inside
    [acc_loss], after the evidence matrix has been computed. *)
Theorem C9_forward_shape_errors (self : TMDLO.t) (X : list (list R)) (y : Z) :
  ((length X < TMDLO.views self)%nat ->
     is_err (TMDLO.infer self X) /\ is_err (TMDLO.forward self X y))
  /\ TMDLO.forward self X y
     = TMDLO.forward self (firstn (TMDLO.views self) X) y
  /\ (~ (0 <= y < Z.of_nat (TMDLO.classes self))%Z ->
      is_err (TMDLO.forward self X y)
      /\ forall ev, TMDLO.infer self X = Ok ev ->
           acc_loss y ev (TMDLO.classes self) = Err RuntimeError
           /\ TMDLO.forward self X y = Err RuntimeError).
Proof.
  split; [|split].
  - intros Hlen. pose proof (infer_short self X Hlen) as H.
    split; [assumption|]. unfold TMDLO.forward. now apply is_err_bind.
  - unfold TMDLO.forward. now rewrite <- infer_firstn.
  - intros Hy.
    assert (Hev : forall ev, TMDLO.infer self X = Ok ev ->
              acc_loss y ev (TMDLO.classes self) = Err RuntimeError
              /\ TMDLO.forward self X y = Err RuntimeError).
    { intros ev Hev.
      pose proof (acc_loss_bad_label y ev (TMDLO.classes self) Hy) as Hacc.
      split; [assumption|].
      unfold TMDLO.forward, TMDLO.loss_of. rewrite Hev. cbn [bind].
      now rewrite Hacc. }
    split; [|assumption].
    unfold is_err. destruct (TMDLO.infer self X) as [ev|e] eqn:E.
    + exists RuntimeError. exact (proj2 (Hev ev eq_refl)).
    + exists e. unfold TMDLO.forward. now rewrite E.
Qed.

Lemma C9_forward_shape_errors_witness :
  is_err (TMDLO.forward model22 X_one 0)
  /\ TMDLO.forward model22 X_three 0 = TMDLO.forward model22 X_two 0
  /\ is_err (TMDLO.forward model22 X_two 2).
Proof.
  destruct (C9_forward_shape_errors model22 X_one 0) as (Hshort & _ & _).
  destruct (C9_forward_shape_errors model22 X_three 0) as (_ & Hmore & _).
  destruct (C9_forward_shape_errors model22 X_two 2) as (_ & _ & Hlabel).
  split; [|split].
  - apply Hshort. simpl. lia.
  - exact Hmore.
  - apply Hlabel. simpl. lia.
Defined.

(** Three feature vectors given to a model of two views: the third is
    ignored and [forward] returns a loss. *)
Lemma C9_counterexample :
  length X_three <> TMDLO.views model22
  /\ TMDLO.infer model22 X_three = Ok (mkTensor2 2 [out0; out0])
  /\ ~ is_err (TMDLO.forward model22 X_three 0)
  /\ TMDLO.forward model22 X_three 0 = TMDLO.forward model22 X_two 0.
Proof.
  assert (Hinf : TMDLO.infer model22 X_three = Ok (mkTensor2 2 [out0; out0]))
    by (now apply infer_model22).
  split; [|split; [|split]].
  - simpl. lia.
  - exact Hinf.
  - unfold TMDLO.forward. rewrite Hinf. cbn [bind].
    destruct loss_of_model22_ok as [l ->]. apply not_err_ok.
  - unfold TMDLO.forward. rewrite Hinf.
    now rewrite (infer_model22 X_two eq_refl).
Qed.

(** * Further properties of the code *)

(** ** When acc_loss is defined, and its range *)

Section AccDefined.

Lemma length_one_hot_label (y : Z) (classes : nat) (label : list R) :
  one_hot y classes = Ok label -> length label = classes.
Proof.
  unfold one_hot. destruct (y <? 0)%Z; [discriminate|].
  destruct (Z.of_nat classes <=? y)%Z; [discriminate|].
  intros E. injection E as <-. unfold range.
  now rewrite length_map, length_seq.
Qed.

(** The result of a broadcast operation still broadcasts against its
    second operand. *)
Lemma bcastable_result (f : R -> R -> R) (u v : list R) :
  bcastable (length u) (length v) = true ->
  bcastable (length (bcast_op f u v)) (length v) = true.
Proof.
  unfold bcastable, bcast_op. intros Hb.
  destruct (Nat.eqb_spec (length u) (length v)) as [E | Hne].
  - rewrite length_zipWith by assumption. rewrite E, Nat.eqb_refl.
    reflexivity.
  - simpl in Hb. destruct u as [|x [|x' u]].
    + destruct v as [|z [|z' v]]; simpl in *; try discriminate.
      reflexivity.
    + rewrite length_map, Nat.eqb_refl. reflexivity.
    + destruct v as [|z [|z' v]]; simpl in *; try discriminate.
      reflexivity.
Qed.

Lemma acc_loss_defined (y : Z) (ev : Tensor2) (classes : nat) :
  (0 <= y < Z.of_nat classes)%Z ->
  bcastable classes (ncols ev) = true ->
  exists l, acc_loss y ev classes = Ok l.
Proof.
  intros Hy Hb. unfold acc_loss.
  destruct (one_hot y classes) as [label|e] eqn:E;
    [|rewrite one_hot_ok in E by assumption; discriminate].
  pose proof (length_one_hot_label y classes label E) as Hl.
  cbn [bind]. unfold bcast2 at 1.
  assert (HP : length (fused_P ev) = ncols ev).
  { unfold fused_P. now rewrite length_map, length_fused_alpha. }
  rewrite Hl, HP, Hb. cbn [bind]. unfold bcast2.
  rewrite !length_map.
  rewrite bcastable_result by (now rewrite Hl, HP).
  cbn [bind]. eexists. reflexivity.
Qed.

Lemma acc_loss_bad_shape (y : Z) (ev : Tensor2) (classes : nat) :
  bcastable classes (ncols ev) = false ->
  acc_loss y ev classes = Err RuntimeError.
Proof.
  intros Hb. unfold acc_loss.
  destruct (one_hot y classes) as [label|e] eqn:E.
  - pose proof (length_one_hot_label y classes label E) as Hl.
    cbn [bind]. unfold bcast2 at 1.
    assert (HP : length (fused_P ev) = ncols ev).
    { unfold fused_P. now rewrite length_map, length_fused_alpha. }
    now rewrite Hl, HP, Hb.
  - unfold one_hot in E.
    destruct (y <? 0)%Z; [now injection E as <-|].
    destruct (Z.of_nat classes <=? y)%Z; [now injection E as <-|].
    discriminate.
Qed.

End AccDefined.

Section AccRange.

Lemma big_sum_sq_le (n : nat) (f : nat -> R) :
  (forall k, (k < n)%nat -> 0 <= f k) ->
  big_sum n (fun k => f k * f k) <= big_sum n f * big_sum n f.
Proof.
  induction n as [|n IH]; intros Hpos.
  - unfold big_sum; simpl. lra.
  - rewrite !big_sum_S.
    assert (0 <= f n) by (apply Hpos; lia).
    assert (0 <= big_sum n f)
      by (apply big_sum_nonneg; intros; apply Hpos; lia).
    assert (big_sum n (fun k => f k * f k) <= big_sum n f * big_sum n f)
      by (apply IH; intros; apply Hpos; lia).
    nra.
Qed.

Lemma others_sq_le (n y : nat) (f : nat -> R) :
  (forall k, (k < n)%nat -> 0 <= f k) ->
  others_sum n y (fun k => f k * f k)
  <= others_sum n y f * others_sum n y f.
Proof.
  intros Hpos. unfold others_sum.
  rewrite (big_sum_ext n (fun k => if (k =? y)%nat then 0 else f k * f k)
             (fun k => (if (k =? y)%nat then 0 else f k)
                       * (if (k =? y)%nat then 0 else f k))).
  - apply big_sum_sq_le. intros k Hk.
    destruct (k =? y)%nat; [lra|now apply Hpos].
  - intros k _. destruct (k =? y)%nat; lra.
Qed.

End AccRange.

(** X1: [acc_loss] returns a value exactly when the label lies in
    [[0, classes)] and [classes] broadcasts against the number of columns
    of the evidence matrix (equal, or one of them is 1); in every other
    case it raises a [RuntimeError]. *)
Theorem X1_acc_loss_defined_iff (y : Z) (ev : Tensor2) (classes : nat) :
  ((0 <= y < Z.of_nat classes)%Z /\ bcastable classes (ncols ev) = true ->
   exists l, acc_loss y ev classes = Ok l)
  /\ (~ ((0 <= y < Z.of_nat classes)%Z
         /\ bcastable classes (ncols ev) = true) ->
      acc_loss y ev classes = Err RuntimeError).
Proof.
  split.
  - intros [Hy Hb]. now apply acc_loss_defined.
  - intros Hn.
    destruct (bcastable classes (ncols ev)) eqn:Hb.
    + apply acc_loss_bad_label. intros Hy. apply Hn. now split.
    + now apply acc_loss_bad_shape.
Qed.

Lemma acc_loss_bounds (y : Z) (ev : Tensor2) (classes : nat) :
  ncols ev = classes -> nonneg ev -> (0 <= y < Z.of_nat classes)%Z ->
  0 <= acc_numerator (Z.to_nat y) classes ev / (fused_S ev * (fused_S ev + 1))
  /\ acc_numerator (Z.to_nat y) classes ev / (fused_S ev * (fused_S ev + 1))
     < 2
  /\ 0 < fused_S ev * (fused_S ev + 1).
Proof.
  intros Hc Hn Hy.
  pose proof (fused_S_label y classes Hy ev Hc) as HS.
  pose proof (alpha_of_ge_1 ev (Z.to_nat y) Hn) as Hay.
  assert (Hpos : forall k, (k < classes)%nat -> 0 <= alpha_of ev k).
  { intros k _. pose proof (alpha_of_ge_1 ev k Hn). lra. }
  pose proof (others_nonneg classes (Z.to_nat y) (alpha_of ev) Hpos) as HA.
  pose proof (others_sq_le classes (Z.to_nat y) (alpha_of ev) Hpos) as HQ.
  assert (HQ0 : 0 <= others_sum classes (Z.to_nat y)
                       (fun k => alpha_of ev k * alpha_of ev k)).
  { apply others_nonneg. intros k Hk. specialize (Hpos k Hk). nra. }
  unfold acc_numerator.
  set (A := others_sum classes (Z.to_nat y) (alpha_of ev)) in *.
  set (Q := others_sum classes (Z.to_nat y)
              (fun k => alpha_of ev k * alpha_of ev k)) in *.
  set (S := fused_S ev) in *.
  assert (HSA : A + 1 <= S) by lra.
  assert (HD : 0 < S * (S + 1)) by nra.
  split; [|split; [|assumption]].
  - apply Rmult_le_pos; [nra|]. left. now apply Rinv_0_lt_compat.
  - apply div_lt_of_lt_mul; [assumption|]. nra.
Qed.


(** ** Errors of con_loss, and the rows it reads *)

Section ConErrors.

Lemma for_loop_split {A : Type} (l1 l2 : list nat)
  (body : A -> nat -> result A) (acc : A) :
  for_loop (l1 ++ l2) body acc =
  acc' <- for_loop l1 body acc ;; for_loop l2 body acc'.
Proof.
  revert acc. induction l1 as [|i l1 IH]; intros acc; [reflexivity|].
  simpl. destruct (body acc i) as [acc'|e]; [|reflexivity].
  simpl. apply IH.
Qed.

Lemma range_split (n k : nat) :
  (k < n)%nat -> range n = range k ++ k :: seq (S k) (n - S k).
Proof.
  intros Hk. unfold range.
  replace n with (k + (1 + (n - S k)))%nat at 1 by lia.
  rewrite seq_app. f_equal.
Qed.

(** With at least two views asked for and fewer rows than that, the inner
    loop of the first outer iteration subscripts [P] out of range. *)
Lemma con_inner_index_error (P : list (list R)) (views : nat) :
  (2 <= views)%nat -> (length P < views)%nat ->
  for_loop (range views) (con_inner_body P (map entropy P) 0) 0
  = Err IndexError.
Proof.
  intros H2 Hlt. destruct P as [|p P].
  - destruct views as [|[|n]]; [lia|lia|reflexivity].
  - set (rows := p :: P) in *.
    assert (Hn : (0 < length rows)%nat) by (unfold rows; simpl; lia).
    rewrite (range_split views (length rows) Hlt), for_loop_split.
    rewrite (con_inner_loop_eq rows (length rows) (le_n _) 0 Hn).
    cbn [bind for_loop]. unfold con_inner_body at 1.
    destruct (Nat.eqb_spec 0 (length rows)) as [E|_]; [lia|].
    rewrite (index_nth rows 0 []) by assumption. cbn [bind].
    now rewrite index_out.
Qed.

Lemma con_loss_index_error (ev : Tensor2) (a : list R) (views classes : nat) :
  bcastable (ncols ev) (length a) = true ->
  (2 <= views)%nat -> (nrows ev < views)%nat ->
  con_loss ev a views classes = Err IndexError.
Proof.
  intros Hb H2 Hlt. unfold con_loss, con_P. rewrite Hb. cbn [bind].
  set (P := map (view_P a classes) (trows ev)).
  assert (HP : (length P < views)%nat)
    by (unfold P; rewrite length_map; exact Hlt).
  destruct views as [|n]; [lia|].
  unfold range. cbn [seq for_loop]. unfold con_outer_body at 1.
  change (seq 0 (S n)) with (range (S n)).
  now rewrite con_inner_index_error.
Qed.

Lemma con_loss_small (ev : Tensor2) (a : list R) (views classes : nat) :
  bcastable (ncols ev) (length a) = true ->
  (views < 2)%nat ->
  con_loss ev a views classes =
  if (views =? 0)%nat then Ok 0 else Err ZeroDivisionError.
Proof.
  intros Hb Hv. unfold con_loss, con_P. rewrite Hb. cbn [bind].
  now apply con_outer_loop_small.
Qed.

Lemma con_loss_bad_prior (ev : Tensor2) (a : list R) (views classes : nat) :
  bcastable (ncols ev) (length a) = false ->
  con_loss ev a views classes = Err RuntimeError.
Proof.
  intros Hb. unfold con_loss, con_P. now rewrite Hb.
Qed.

End ConErrors.

(** X3: the errors of [con_loss].  A prior that does not broadcast against
    the columns raises a [RuntimeError]; otherwise no view gives [0.0], one
    view divides by zero, two or more views with fewer rows than [views]
    subscript out of range, and two or more views with enough rows give a
    value. *)
Theorem X3_con_loss_errors (ev : Tensor2) (a : list R) (views classes : nat) :
  (bcastable (ncols ev) (length a) = false ->
   con_loss ev a views classes = Err RuntimeError)
  /\ (bcastable (ncols ev) (length a) = true ->
      (views = 0%nat -> con_loss ev a views classes = Ok 0)
      /\ (views = 1%nat ->
          con_loss ev a views classes = Err ZeroDivisionError)
      /\ ((2 <= views)%nat -> (nrows ev < views)%nat ->
          con_loss ev a views classes = Err IndexError)
      /\ ((2 <= views)%nat -> (views <= nrows ev)%nat ->
          exists l, con_loss ev a views classes = Ok l)).
Proof.
  split; [apply con_loss_bad_prior|].
  intros Hb. split; [|split; [|split]].
  - intros ->. now rewrite con_loss_small by (assumption || lia).
  - intros ->. now rewrite con_loss_small by (assumption || lia).
  - now apply con_loss_index_error.
  - intros H2 Hle. eexists. now apply con_loss_eq_spec.
Qed.

(** X4: [con_loss] reads only the first [views] rows of the evidence
    matrix: it returns on the matrix what it returns on those rows. *)
Theorem X4_con_loss_reads_prefix (ev : Tensor2) (a : list R)
  (views classes : nat) :
  con_loss ev a views classes =
  con_loss (mkTensor2 (ncols ev) (firstn views (trows ev))) a views classes.
Proof.
  unfold con_loss, con_P. cbn [ncols trows].
  destruct (bcastable (ncols ev) (length a)); [|reflexivity].
  cbn [bind]. rewrite <- firstn_map.
  set (P := map (view_P a classes) (trows ev)).
  rewrite <- firstn_map. set (H := map entropy P).
  apply for_loop_ext. intros L m Hm. apply in_seq in Hm.
  unfold con_outer_body. f_equal.
  apply for_loop_ext. intros sum_E v Hv. apply in_seq in Hv.
  unfold con_inner_body.
  now rewrite !index_firstn by lia.
Qed.

(** ** Opinions: belief, uncertainty and projected probability *)

Section Opinion.

Lemma vsum_zipWith_plus (u v : list R) :
  length u = length v ->
  vsum (zipWith Rplus u v) = vsum u + vsum v.
Proof.
  revert v. induction u as [|x u IH]; intros [|y v] Hlen; simpl in *;
    try discriminate; [lra|].
  injection Hlen as Hlen. rewrite (IH v Hlen). lra.
Qed.

Lemma vsum_map_div (c : R) (l : list R) :
  vsum (map (fun x => x / c) l) = vsum l / c.
Proof.
  induction l as [|x l IH]; simpl; [unfold Rdiv; lra|].
  rewrite IH. unfold Rdiv. lra.
Qed.

Lemma vsum_map_mul_r (c : R) (l : list R) :
  vsum (map (fun x => x * c) l) = vsum l * c.
Proof.
  induction l as [|x l IH]; simpl; [lra|]. rewrite IH. lra.
Qed.

Lemma vsum_repeat (c : R) (n : nat) : vsum (repeat c n) = INR n * c.
Proof.
  induction n as [|n IH]; [simpl; lra|].
  rewrite S_INR. simpl. rewrite IH. lra.
Qed.

Lemma vsum_uniform_prior (classes : nat) :
  (1 <= classes)%nat -> vsum (uniform_prior classes) = 1.
Proof.
  intros H1. unfold uniform_prior.
  rewrite vsum_map_div, vsum_repeat.
  assert (0 < INR classes) by (apply lt_0_INR; lia). field. lra.
Qed.

(** The invariants of one view's opinion. *)
Lemma opinion_invariants (classes : nat) (e : list R) :
  (1 <= classes)%nat -> length e = classes ->
  Forall (fun x => 0 <= x) e ->
  INR classes <= view_S e
  /\ vsum (view_B e) + view_U classes e = 1
  /\ 0 < view_U classes e /\ view_U classes e <= 1.
Proof.
  intros H1 Hlen He.
  assert (Hc : 1 <= INR classes) by (apply le_INR in H1; simpl in H1; lra).
  pose proof (vsum_nonneg e He) as Hs.
  pose proof (view_S_eq e) as HS. rewrite Hlen in HS.
  assert (HSpos : 0 < view_S e) by lra.
  unfold view_B, view_U. rewrite vsum_map_div.
  split; [lra|]. split; [|split].
  - rewrite HS at 1 2. field. lra.
  - apply Rdiv_lt_0_compat; lra.
  - apply (Rmult_le_reg_r (view_S e)); [assumption|].
    unfold Rdiv. rewrite Rmult_assoc, Rinv_l by lra. lra.
Qed.

Lemma view_P_sum (classes : nat) (a e : list R) :
  (1 <= classes)%nat -> length e = classes -> length a = classes ->
  Forall (fun x => 0 <= x) e -> vsum a = 1 ->
  vsum (view_P a classes e) = 1.
Proof.
  intros H1 Hlen Ha He Hsum.
  destruct (opinion_invariants classes e H1 Hlen He) as (_ & HBU & _).
  unfold view_P. rewrite bcast_op_same
    by (unfold view_B; now rewrite !length_map, Hlen, Ha).
  rewrite vsum_zipWith_plus
    by (unfold view_B; now rewrite !length_map, Hlen, Ha).
  rewrite vsum_map_mul_r, Hsum. lra.
Qed.

End Opinion.

(** X5: for one view with non-negative evidence over [classes >= 1]
    classes, the Dirichlet strength is at least [classes], belief and
    uncertainty add up to one, the uncertainty lies in [(0, 1]], and under
    any prior that sums to one the projected probability sums to one. *)
Theorem X5_opinion_invariants (classes : nat) (a e : list R) :
  (1 <= classes)%nat ->
  length e = classes ->
  Forall (fun x => 0 <= x) e ->
  INR classes <= view_S e
  /\ vsum (view_B e) + view_U classes e = 1
  /\ 0 < view_U classes e <= 1
  /\ (length a = classes -> vsum a = 1 -> vsum (view_P a classes e) = 1).
Proof.
  intros H1 Hlen He.
  destruct (opinion_invariants classes e H1 Hlen He) as (HS & HBU & HU0 & HU1).
  repeat (split; try assumption).
  intros Ha Hsum. now apply view_P_sum.
Qed.

(** ** The range of con_loss *)

Section ConRange.

Lemma jsd_term_le (x y : R) : 0 < x -> 0 < y -> jsd_term x y <= (x + y) / 2.
Proof.
  intros Hx Hy. rewrite jsd_term_ln.
  set (m := (x + y) / 2).
  assert (Hm : 0 < m) by (unfold m; lra).
  pose proof ln_2_pos as H2.
  assert (Hdouble : ln (2 * m) = ln 2 + ln m) by (apply ln_mult; lra).
  assert (Hlx : ln x < ln (2 * m))
    by (apply ln_increasing; [assumption|unfold m; lra]).
  assert (Hly : ln y < ln (2 * m))
    by (apply ln_increasing; [assumption|unfold m; lra]).
  assert (Hnum : x * (ln x - ln m) + y * (ln y - ln m) <= (x + y) * ln 2)
    by nra.
  apply (Rmult_le_reg_r (2 * ln 2)); [lra|].
  replace ((x * (ln x - ln m) + y * (ln y - ln m)) / 2 / ln 2 * (2 * ln 2))
    with (x * (ln x - ln m) + y * (ln y - ln m)) by (field; lra).
  subst m. nra.
Qed.

Lemma excess_entropy_le (p q : list R) :
  length p = length q ->
  Forall (fun x => 0 < x) p -> Forall (fun x => 0 < x) q ->
  excess_entropy p q <= (vsum p + vsum q) / 2.
Proof.
  intros Hlen Hp Hq. rewrite excess_entropy_terms by assumption.
  revert q Hlen Hq. induction Hp as [|x p Hx Hp IH];
    intros [|y q] Hlen Hq; simpl in *; try discriminate; [lra|].
  injection Hlen as Hlen. inversion Hq as [|? ? Hy Hq']; subst.
  specialize (IH q Hlen Hq').
  pose proof (jsd_term_le x y Hx Hy). lra.
Qed.

Lemma big_sum_le (n : nat) (f g : nat -> R) :
  (forall k, (k < n)%nat -> f k <= g k) -> big_sum n f <= big_sum n g.
Proof.
  intros H. apply vsum_map_le. intros k Hk.
  apply in_seq in Hk. apply H. lia.
Qed.

Lemma big_sum_zero_terms (n : nat) (f : nat -> R) :
  (forall k, (k < n)%nat -> 0 <= f k) -> big_sum n f = 0 ->
  forall k, (k < n)%nat -> f k = 0.
Proof.
  intros Hpos Hz k Hk.
  pose proof (big_sum_ge_term n k f Hpos Hk). specialize (Hpos k Hk). lra.
Qed.

Lemma count_others (n m : nat) :
  (m < n)%nat ->
  big_sum n (fun v => if (m =? v)%nat then 0 else 1) = INR n - 1.
Proof.
  intros Hm.
  pose proof (big_sum_split_label n m Hm (fun _ => 1)) as H.
  rewrite big_sum_const in H. unfold others_sum in H.
  rewrite (big_sum_ext n _ (fun k => if (k =? m)%nat then 0 else 1))
    by (intros k _; now rewrite Nat.eqb_sym).
  lra.
Qed.

Variables (ev : Tensor2) (views classes : nat).
Hypothesis Hwf : wf ev.
Hypothesis Hnonneg : nonneg ev.
Hypothesis Hcols : ncols ev = classes.
Hypothesis Hrows : nrows ev = views.

Lemma P_view_facts (m : nat) :
  (m < views)%nat ->
  length (P_view ev (uniform_prior classes) classes m) = classes
  /\ Forall (fun x => 0 < x) (P_view ev (uniform_prior classes) classes m)
  /\ vsum (P_view ev (uniform_prior classes) classes m) <= 1.
Proof.
  intros Hm. rewrite P_view_row by lia.
  destruct (row_props ev m Hwf Hnonneg) as [Lm Nm]; [lia|].
  rewrite Hcols in Lm.
  split; [now apply length_view_P|]. split; [now apply view_P_pos|].
  destruct (Nat.eq_dec classes 0) as [E0|Hne].
  - rewrite view_P_zip by assumption.
    destruct (nth m (trows ev) []); [simpl; lra|simpl in Lm; lia].
  - rewrite view_P_sum; try assumption; try lia; try lra.
    + apply length_uniform_prior.
    + apply vsum_uniform_prior. lia.
Qed.

Lemma E_mv_facts (m v : nat) :
  (m < views)%nat -> (v < views)%nat ->
  0 <= E_mv ev (uniform_prior classes) classes m v
  /\ E_mv ev (uniform_prior classes) classes m v <= 1
  /\ (E_mv ev (uniform_prior classes) classes m v = 0
      <-> P_view ev (uniform_prior classes) classes m
          = P_view ev (uniform_prior classes) classes v).
Proof.
  intros Hm Hv.
  destruct (P_view_facts m Hm) as (Lm & Pm & Sm).
  destruct (P_view_facts v Hv) as (Lv & Pv & Sv).
  assert (Hlen : length (P_view ev (uniform_prior classes) classes m)
                 = length (P_view ev (uniform_prior classes) classes v))
    by (now rewrite Lm, Lv).
  unfold E_mv.
  destruct (excess_entropy_nonneg _ _ Hlen Pm Pv) as [H0 Hiff].
  pose proof (excess_entropy_le _ _ Hlen Pm Pv) as Hle.
  split; [assumption|]. split; [lra|assumption].
Qed.

Let inner := fun m =>
  big_sum views
    (fun v => if (m =? v)%nat then 0
              else E_mv ev (uniform_prior classes) classes m v).

Lemma inner_facts (m : nat) :
  (m < views)%nat -> 0 <= inner m /\ inner m <= INR views - 1.
Proof.
  intros Hm. unfold inner. split.
  - apply big_sum_nonneg. intros v Hv.
    destruct (m =? v)%nat; [lra|]. now apply E_mv_facts.
  - rewrite <- (count_others views m Hm). apply big_sum_le.
    intros v Hv. destruct (m =? v)%nat; [lra|]. now apply E_mv_facts.
Qed.

Lemma con_loss_spec_range :
  (2 <= views)%nat ->
  0 <= con_loss_spec ev (uniform_prior classes) views classes
  /\ con_loss_spec ev (uniform_prior classes) views classes <= INR views.
Proof.
  intros H2. unfold con_loss_spec. fold inner.
  assert (Hc : INR (views - 1) = INR views - 1)
    by (rewrite minus_INR by lia; simpl; lra).
  assert (Hv : 2 <= INR views) by (apply le_INR in H2; simpl in H2; lra).
  rewrite Hc. split.
  - apply big_sum_nonneg. intros m Hm.
    destruct (inner_facts m Hm) as [H0 _].
    apply Rmult_le_pos; [assumption|].
    left. apply Rinv_0_lt_compat. lra.
  - apply Rle_trans with (big_sum views (fun _ => 1));
      [|rewrite big_sum_const; lra].
    apply big_sum_le. intros m Hm.
    destruct (inner_facts m Hm) as [_ H1].
    apply (Rmult_le_reg_r (INR views - 1)); [lra|].
    unfold Rdiv. rewrite Rmult_assoc, Rinv_l by lra.
    unfold inner in H1. lra.
Qed.

Lemma con_loss_spec_zero_iff :
  (2 <= views)%nat ->
  con_loss_spec ev (uniform_prior classes) views classes = 0
  <-> (forall m v, (m < views)%nat -> (v < views)%nat ->
         P_view ev (uniform_prior classes) classes m
         = P_view ev (uniform_prior classes) classes v).
Proof.
  intros H2.
  assert (Hc : 0 < INR (views - 1)) by (apply lt_0_INR; lia).
  unfold con_loss_spec. fold inner. split.
  - intros Hz m v Hm Hv.
    destruct (Nat.eq_dec m v) as [-> | Hne]; [reflexivity|].
    assert (Hq : inner m / INR (views - 1) = 0).
    { apply (big_sum_zero_terms views (fun k => inner k / INR (views - 1)));
        try assumption.
      intros k Hk. destruct (inner_facts k Hk) as [H0 _].
      apply Rmult_le_pos; [assumption|].
      left. now apply Rinv_0_lt_compat. }
    assert (Hi : inner m = 0).
    { apply (Rmult_eq_compat_r (INR (views - 1))) in Hq.
      unfold Rdiv in Hq. rewrite Rmult_assoc, Rinv_l in Hq by lra. lra. }
    pose proof (big_sum_zero_terms views
      (fun k => if (m =? k)%nat then 0
                else E_mv ev (uniform_prior classes) classes m k)) as Hterm.
    cbv beta in Hterm. specialize (Hterm
      (fun k Hk => match (m =? k)%nat as b
                     return 0 <= (if b then 0
                       else E_mv ev (uniform_prior classes) classes m k)
                   with
                   | true => Rle_refl 0
                   | false => proj1 (E_mv_facts m k Hm Hk)
                   end) Hi v Hv).
    destruct (Nat.eqb_spec m v) as [|_]; [contradiction|].
    now apply (E_mv_facts m v Hm Hv).
  - intros Hall.
    rewrite (big_sum_ext views _ (fun _ => 0)).
    + rewrite big_sum_const. lra.
    + intros m Hm. unfold inner.
      rewrite (big_sum_ext views _ (fun _ => 0)).
      * rewrite big_sum_const. unfold Rdiv. lra.
      * intros v Hv. destruct (m =? v)%nat; [reflexivity|].
        now apply (E_mv_facts m v Hm Hv), Hall.
Qed.

End ConRange.

(** X6: for a well-formed non-negative evidence matrix of [views >= 2] rows
    and the uniform prior, [con_loss] returns a value between [0] and
    [views]. *)
Theorem X6_con_loss_range (ev : Tensor2) (views classes : nat) :
  wf ev -> nonneg ev ->
  ncols ev = classes -> nrows ev = views ->
  (2 <= views)%nat ->
  exists l, con_loss ev (uniform_prior classes) views classes = Ok l
            /\ 0 <= l /\ l <= INR views.
Proof.
  intros Hwf Hn Hc Hv H2.
  exists (con_loss_spec ev (uniform_prior classes) views classes).
  split.
  - apply con_loss_eq_spec; [assumption|lia|].
    rewrite length_uniform_prior, Hc. apply bcastable_refl.
  - now apply con_loss_spec_range.
Qed.

(** X7: under the same conditions [con_loss] returns zero exactly when all
    the views have the same projected probability. *)
Theorem X7_con_loss_zero_iff_agreement (ev : Tensor2) (views classes : nat) :
  wf ev -> nonneg ev ->
  ncols ev = classes -> nrows ev = views ->
  (2 <= views)%nat ->
  con_loss ev (uniform_prior classes) views classes = Ok 0
  <-> (forall m v, (m < views)%nat -> (v < views)%nat ->
         P_view ev (uniform_prior classes) classes m
         = P_view ev (uniform_prior classes) classes v).
Proof.
  intros Hwf Hn Hc Hv H2.
  rewrite con_loss_eq_spec;
    [|assumption|lia|rewrite length_uniform_prior, Hc; apply bcastable_refl].
  rewrite <- (con_loss_spec_zero_iff ev views classes Hwf Hn Hc Hv H2).
  split.
  - intros E. now injection E.
  - intros ->. reflexivity.
Qed.

(** ** The encoders *)

Section Encoders.

(** Over the reals the softplus is strictly positive.  In floating point
    [exp] underflows for very negative inputs and the result is exactly
    [0.0], so the properties of the encoders below only state
    non-negativity. *)
Lemma softplus_pos (x : R) : 0 < softplus x.
Proof.
  unfold softplus. destruct (Rlt_dec 20 x) as [H|H]; [lra|].
  rewrite <- ln_1. apply ln_increasing; [lra|].
  pose proof (exp_pos x). lra.
Qed.

(** A loop that appends one element per index builds a [map]. *)
Lemma for_loop_collect {A : Type} (l : list nat)
  (body : list A -> nat -> result (list A)) (g : nat -> A) (acc : list A) :
  (forall acc i, In i l -> body acc i = Ok (acc ++ [g i])) ->
  for_loop l body acc = Ok (acc ++ map g l).
Proof.
  revert acc. induction l as [|i l IH]; intros acc H.
  - simpl. now rewrite app_nil_r.
  - simpl. rewrite (H acc i) by now left. cbn [bind].
    rewrite IH by (intros; apply H; now right).
    now rewrite <- app_assoc.
Qed.

Lemma index_dims (dims : list nat) (classes i : nat) :
  (i < length dims)%nat -> index dims i = Ok (dim_at dims classes i).
Proof.
  intros Hi. rewrite (index_nth dims i 0%nat Hi). f_equal.
  unfold dim_at. now rewrite app_nth1.
Qed.

Lemma dim_at_last (dims : list nat) (classes : nat) :
  dim_at dims classes (length dims) = classes.
Proof.
  unfold dim_at. rewrite app_nth2 by lia. now rewrite Nat.sub_diag.
Qed.

Lemma init_empty (classes : nat) (p : nat -> LinearInit) :
  Classifier.init [] classes p = Err IndexError.
Proof. reflexivity. Qed.

Lemma init_built (dims : list nat) (classes : nat) (p : nat -> LinearInit) :
  dims <> [] -> Classifier.init dims classes p = Ok (built dims classes p).
Proof.
  intros Hne. unfold Classifier.init.
  assert (Hlen : (1 <= length dims)%nat)
    by (destruct dims; [contradiction|simpl; lia]).
  rewrite (for_loop_collect _ _
             (fun i => new_linear (p i) (dim_at dims classes i)
                         (dim_at dims classes (S i)))).
  - cbn [bind app]. rewrite (index_dims dims classes) by lia.
    cbn [bind]. unfold built, built_layers. do 2 f_equal.
    set (n := (length dims - 1)%nat).
    assert (En : length dims = S n) by (unfold n; lia).
    rewrite En. unfold range. rewrite seq_S, map_app. cbn [map Nat.add].
    rewrite <- app_assoc. cbn [app]. do 2 f_equal.
    now rewrite <- En, dim_at_last.
  - intros acc i Hi. apply in_seq in Hi.
    rewrite (index_dims dims classes i) by lia. cbn [bind].
    rewrite (index_dims dims classes (i + 1)) by lia. cbn [bind].
    now rewrite Nat.add_1_r.
Qed.

Lemma run_layers_app (l1 l2 : list Layer) (h : list R) :
  run_layers (l1 ++ l2) h = h' <- run_layers l1 h ;; run_layers l2 h'.
Proof.
  revert h. induction l1 as [|l l1 IH]; intros h; [reflexivity|].
  simpl. destruct (apply_layer l h) as [h'|e]; [|reflexivity].
  simpl. apply IH.
Qed.

Lemma layer_loop_run (pre rest : list Layer) (h : list R) :
  for_loop (seq (length pre) (length rest))
    (fun h i => l <- index (pre ++ rest) i ;; apply_layer l h) h
  = run_layers rest h.
Proof.
  revert pre h. induction rest as [|l rest IH]; intros pre h;
    [reflexivity|].
  cbn [length seq for_loop run_layers].
  unfold index at 1. rewrite nth_error_app2 by lia.
  rewrite Nat.sub_diag. cbn [nth_error bind].
  destruct (apply_layer l h) as [h'|e]; [|reflexivity].
  cbn [bind].
  specialize (IH (pre ++ [l]) h').
  rewrite length_app in IH. cbn [length] in IH.
  rewrite Nat.add_1_r, <- app_assoc in IH. exact IH.
Qed.

(** [forward] applies the layers of [fc] in order. *)
Lemma forward_run (l0 : Layer) (layers : list Layer) (x : list R) :
  Classifier.forward (Classifier.mk (l0 :: layers)) x
  = run_layers (l0 :: layers) x.
Proof.
  unfold Classifier.forward. cbn [Classifier.fc index nth_error bind].
  cbn [run_layers]. destruct (apply_layer l0 x) as [h|e]; [|reflexivity].
  cbn [bind length].
  replace (S (length layers) - 1)%nat with (length layers) by lia.
  exact (layer_loop_run [l0] layers h).
Qed.

Lemma forward_no_layer (x : list R) :
  Classifier.forward (Classifier.mk []) x = Err IndexError.
Proof. reflexivity. Qed.

Lemma apply_new_linear (p : LinearInit) (d_in d_out : nat) (h : list R) :
  length h = d_in ->
  exists h', apply_layer (new_linear p d_in d_out) h = Ok h'
             /\ length h' = d_out.
Proof.
  intros Hlen. unfold new_linear, apply_layer.
  rewrite Hlen, Nat.eqb_refl. eexists. split; [reflexivity|].
  unfold range.
  rewrite length_zipWith; rewrite !length_map, length_seq; reflexivity.
Qed.

Lemma apply_new_linear_mismatch (p : LinearInit) (d_in d_out : nat)
  (h : list R) :
  length h <> d_in ->
  apply_layer (new_linear p d_in d_out) h = Err RuntimeError.
Proof.
  intros Hlen. unfold new_linear, apply_layer.
  destruct (Nat.eqb_spec (length h) d_in); [contradiction|reflexivity].
Qed.

(** The linear layers of a built classifier fit one another: run from
    layer [s] on an input of the width layer [s] expects, they succeed. *)
Lemma run_built_from (D : nat -> nat) (p : nat -> LinearInit) (n s : nat)
  (h : list R) :
  length h = D s ->
  exists h',
    run_layers (map (fun i => new_linear (p i) (D i) (D (S i))) (seq s n)) h
    = Ok h' /\ length h' = D (s + n)%nat.
Proof.
  revert s h. induction n as [|n IH]; intros s h Hlen.
  - exists h. split; [reflexivity|]. now rewrite Nat.add_0_r.
  - cbn [seq map run_layers].
    destruct (apply_new_linear (p s) (D s) (D (S s)) h Hlen) as (h1 & E1 & L1).
    rewrite E1. cbn [bind].
    destruct (IH (S s) h1 L1) as (h' & E' & L').
    exists h'. split; [assumption|].
    now rewrite <- Nat.add_succ_comm.
Qed.

Lemma forward_built (dims : list nat) (classes : nat)
  (p : nat -> LinearInit) (x : list R) :
  dims <> [] -> length x = hd 0%nat dims ->
  exists out, Classifier.forward (built dims classes p) x = Ok out
              /\ length out = classes
              /\ Forall (fun e => 0 < e) out.
Proof.
  intros Hne Hlen.
  assert (H0 : hd 0%nat dims = dim_at dims classes 0)
    by (destruct dims; [contradiction|reflexivity]).
  rewrite H0 in Hlen.
  destruct (run_built_from (dim_at dims classes) p (length dims) 0 x Hlen)
    as (h & Eh & Lh).
  cbn [Nat.add] in Lh. rewrite dim_at_last in Lh.
  exists (map softplus h).
  assert (Hrun : run_layers (built_layers dims classes p ++ [Softplus]) x
                 = Ok (map softplus h)).
  { rewrite run_layers_app. unfold built_layers, range. rewrite Eh.
    reflexivity. }
  split; [|split].
  - unfold built.
    destruct (built_layers dims classes p ++ [Softplus]) as [|l0 ls] eqn:E.
    + destruct (built_layers dims classes p); discriminate.
    + now rewrite forward_run.
  - now rewrite length_map.
  - apply Forall_map, Forall_forall. intros e _. apply softplus_pos.
Qed.

Lemma forward_built_mismatch (dims : list nat) (classes : nat)
  (p : nat -> LinearInit) (x : list R) :
  dims <> [] -> length x <> hd 0%nat dims ->
  Classifier.forward (built dims classes p) x = Err RuntimeError.
Proof.
  intros Hne Hlen. destruct dims as [|d ds]; [contradiction|].
  unfold built, built_layers, range. cbn [length seq map app].
  rewrite forward_run. cbn [run_layers].
  rewrite apply_new_linear_mismatch; [reflexivity|].
  exact Hlen.
Qed.

End Encoders.

(** X8: [Classifier.__init__] fails with an [IndexError] on an empty
    [classifier_dims]; on a non-empty one it builds an encoder whose
    [forward] accepts exactly the inputs of [classifier_dims[0]] features
    (one configured dimension, no hidden layer, included): on those it
    returns [classes] non-negative numbers, on every other input it raises
    a [RuntimeError]. *)
Theorem X8_classifier_built (dims : list nat) (classes : nat)
  (p : nat -> LinearInit) :
  (dims = [] -> Classifier.init dims classes p = Err IndexError)
  /\ (dims <> [] ->
      exists c, Classifier.init dims classes p = Ok c
        /\ forall x,
             (length x = hd 0%nat dims ->
              exists out, Classifier.forward c x = Ok out
                          /\ length out = classes
                          /\ Forall (fun e => 0 <= e) out)
             /\ (length x <> hd 0%nat dims ->
                 Classifier.forward c x = Err RuntimeError)).
Proof.
  split.
  - intros ->. apply init_empty.
  - intros Hne. exists (built dims classes p).
    split; [now apply init_built|].
    intros x. split.
    + intros Hlen.
      destruct (forward_built dims classes p x Hne Hlen)
        as (out & E & L & P).
      exists out. split; [assumption|]. split; [assumption|].
      apply Forall_impl with (2 := P). intros e He. lra.
    + now apply forward_built_mismatch.
Qed.

(** ** infer *)

Section Infer.

Lemma for_loop_seq_inv {A : Type} (Inv : nat -> A -> Prop)
  (body : A -> nat -> result A) (n s : nat) (acc r : A) :
  Inv s acc ->
  (forall i a a', (s <= i < s + n)%nat -> Inv i a -> body a i = Ok a' ->
                  Inv (S i) a') ->
  for_loop (seq s n) body acc = Ok r -> Inv (s + n)%nat r.
Proof.
  revert s acc. induction n as [|n IH]; intros s acc H0 Hstep Hrun.
  - simpl in Hrun. injection Hrun as <-. now rewrite Nat.add_0_r.
  - cbn [seq for_loop] in Hrun.
    destruct (body acc s) as [a'|e] eqn:E; [|discriminate].
    cbn [bind] in Hrun. rewrite <- Nat.add_succ_comm.
    apply (IH (S s) a'); [|intros i a a2 Hi; apply Hstep; lia|assumption].
    apply (Hstep s acc a'); [lia|assumption|assumption].
Qed.

Lemma for_loop_seq_ok {A : Type} (Inv : nat -> A -> Prop)
  (body : A -> nat -> result A) (n s : nat) (acc : A) :
  Inv s acc ->
  (forall i a, (s <= i < s + n)%nat -> Inv i a ->
               exists a', body a i = Ok a' /\ Inv (S i) a') ->
  exists r, for_loop (seq s n) body acc = Ok r /\ Inv (s + n)%nat r.
Proof.
  revert s acc. induction n as [|n IH]; intros s acc H0 Hstep.
  - exists acc. split; [reflexivity|]. now rewrite Nat.add_0_r.
  - cbn [seq for_loop].
    destruct (Hstep s acc) as (a' & E & H1); [lia|assumption|].
    rewrite E. cbn [bind]. rewrite <- Nat.add_succ_comm.
    apply (IH (S s) a'); [assumption|].
    intros i a Hi. apply Hstep. lia.
Qed.

(** Overwriting row [i] of a list of rows. *)
Lemma length_overwrite {A : Type} (rows : list A) (i : nat) (r : A) :
  (i < length rows)%nat ->
  length (firstn i rows ++ r :: skipn (S i) rows) = length rows.
Proof.
  intros Hi. rewrite length_app, length_firstn. cbn [length].
  rewrite length_skipn. lia.
Qed.

Lemma nth_overwrite {A : Type} (rows : list A) (i v : nat) (r d : A) :
  (i < length rows)%nat ->
  nth v (firstn i rows ++ r :: skipn (S i) rows) d =
  if (v =? i)%nat then r else nth v rows d.
Proof.
  intros Hi.
  assert (Hf : length (firstn i rows) = i)
    by (rewrite length_firstn; lia).
  destruct (Nat.eqb_spec v i) as [-> | Hne].
  - rewrite <- Hf at 1. apply nth_middle.
  - destruct (Nat.lt_ge_cases v i) as [Hlt | Hge].
    + rewrite app_nth1 by lia. rewrite nth_firstn.
      destruct (Nat.ltb_spec v i); [reflexivity|lia].
    + rewrite app_nth2 by lia. rewrite Hf.
      destruct (v - i)%nat as [|k] eqn:Ek; [lia|].
      cbn [nth]. rewrite nth_skipn. f_equal. lia.
Qed.

Lemma length_stored_row (classes : nat) (out : list R) :
  length (stored_row classes out) = classes.
Proof.
  unfold stored_row. destruct (Nat.eqb_spec (length out) classes);
    [assumption|apply repeat_length].
Qed.

Lemma set_row_spec (classes : nat) (rows : list (list R)) (i : nat)
  (out : list R) :
  (length out = classes \/ length out = 1%nat ->
   TMDLO.set_row classes rows i out =
   Ok (firstn i rows ++ stored_row classes out :: skipn (S i) rows))
  /\ (~ (length out = classes \/ length out = 1%nat) ->
      TMDLO.set_row classes rows i out = Err RuntimeError).
Proof.
  unfold TMDLO.set_row, stored_row.
  destruct (Nat.eqb_spec (length out) classes) as [E | Hne].
  - split; [reflexivity|]. intros H. exfalso. apply H. now left.
  - destruct out as [|x [|x' out]]; cbn [length hd].
    + split; [intros [H|H]; [contradiction|discriminate]|reflexivity].
    + split; [reflexivity|]. intros H. exfalso. apply H. now right.
    + split; [|reflexivity].
      intros [H|H]; [contradiction|discriminate].
Qed.

Variables (self : TMDLO.t) (X : list (list R)).

Let body := fun (evidences : list (list R)) (v_num : nat) =>
  c <- index (TMDLO.Classifiers self) v_num ;;
  x <- index X v_num ;;
  out <- Classifier.forward c x ;;
  TMDLO.set_row (TMDLO.classes self) evidences v_num out.

Lemma infer_body_call (rows : list (list R)) (v : nat) :
  body rows v =
  out <- call_view self X v ;; TMDLO.set_row (TMDLO.classes self) rows v out.
Proof.
  unfold body, call_view.
  destruct (index (TMDLO.Classifiers self) v) as [c|e]; [|reflexivity].
  cbn [bind]. destruct (index X v) as [x|e]; reflexivity.
Qed.

Lemma infer_inv_zeros :
  infer_inv self X 0
    (repeat (repeat 0 (TMDLO.classes self)) (TMDLO.views self)).
Proof.
  split; [apply repeat_length|]. split.
  - intros v Hv. rewrite nth_repeat_lt by assumption. apply repeat_length.
  - intros v Hv. lia.
Qed.

Lemma infer_inv_step (i : nat) (rows rows' : list (list R)) (out : list R) :
  (i < TMDLO.views self)%nat ->
  infer_inv self X i rows ->
  call_view self X i = Ok out ->
  length out = TMDLO.classes self \/ length out = 1%nat ->
  rows' = firstn i rows ++ stored_row (TMDLO.classes self) out
                        :: skipn (S i) rows ->
  infer_inv self X (S i) rows'.
Proof.
  intros Hi (Hlen & Hwf & Hdone) Hcall Hshape ->.
  assert (Hi' : (i < length rows)%nat) by lia.
  split; [|split].
  - now rewrite length_overwrite.
  - intros v Hv. rewrite nth_overwrite by assumption.
    destruct (v =? i)%nat; [apply length_stored_row|now apply Hwf].
  - intros v Hv. rewrite nth_overwrite by assumption.
    destruct (Nat.eqb_spec v i) as [-> | Hne].
    + exists out. repeat split; assumption.
    + apply Hdone. lia.
Qed.

Lemma infer_rows_inv (rows : list (list R)) :
  for_loop (range (TMDLO.views self)) body
    (repeat (repeat 0 (TMDLO.classes self)) (TMDLO.views self)) = Ok rows ->
  infer_inv self X (TMDLO.views self) rows.
Proof.
  intros Hrun.
  apply (for_loop_seq_inv (infer_inv self X) body (TMDLO.views self) 0 _ rows
           infer_inv_zeros); [|exact Hrun].
  intros i a a' Hi Hinv Hb. rewrite infer_body_call in Hb.
  destruct (call_view self X i) as [out|e] eqn:Ec; [|discriminate].
  cbn [bind] in Hb.
  destruct (set_row_spec (TMDLO.classes self) a i out) as [Hok Herr].
  assert (Hdec : (length out = TMDLO.classes self \/ length out = 1%nat)
                 \/ ~ (length out = TMDLO.classes self
                       \/ length out = 1%nat))
    by (destruct (Nat.eq_dec (length out) (TMDLO.classes self));
        destruct (Nat.eq_dec (length out) 1); tauto).
  destruct Hdec as [Hs | Hs].
  - rewrite (Hok Hs) in Hb. injection Hb as <-.
    apply (infer_inv_step i a _ out); try assumption; [lia|reflexivity].
  - rewrite (Herr Hs) in Hb. discriminate.
Qed.

Lemma infer_rows_ok :
  (forall v, (v < TMDLO.views self)%nat ->
     exists out, call_view self X v = Ok out
       /\ (length out = TMDLO.classes self \/ length out = 1%nat)) ->
  exists rows,
    for_loop (range (TMDLO.views self)) body
      (repeat (repeat 0 (TMDLO.classes self)) (TMDLO.views self)) = Ok rows
    /\ infer_inv self X (TMDLO.views self) rows.
Proof.
  intros Hall.
  apply (for_loop_seq_ok (infer_inv self X) body (TMDLO.views self) 0 _
           infer_inv_zeros).
  intros i a Hi Hinv. rewrite infer_body_call.
  destruct (Hall i) as (out & Ec & Hs); [lia|].
  rewrite Ec. cbn [bind].
  destruct (set_row_spec (TMDLO.classes self) a i out) as [Hok _].
  rewrite (Hok Hs). eexists. split; [reflexivity|].
  apply (infer_inv_step i a _ out); try assumption; [lia|reflexivity].
Qed.

Lemma infer_unfold :
  TMDLO.infer self X =
  rows <- for_loop (range (TMDLO.views self)) body
            (repeat (repeat 0 (TMDLO.classes self)) (TMDLO.views self)) ;;
  Ok (mkTensor2 (TMDLO.classes self) rows).
Proof. reflexivity. Qed.

End Infer.

(** X9: when [infer] returns, the evidence matrix has [views] rows and
    [classes] columns, every row has [classes] entries, and row [v] holds
    what encoder [v] returned on [X[v]] (repeated [classes] times when the
    encoder returned a single number). *)
Theorem X9_infer_result (self : TMDLO.t) (X : list (list R)) (ev : Tensor2) :
  TMDLO.infer self X = Ok ev ->
  ncols ev = TMDLO.classes self
  /\ nrows ev = TMDLO.views self
  /\ wf ev
  /\ (forall v, (v < TMDLO.views self)%nat ->
       exists out, call_view self X v = Ok out
         /\ nth v (trows ev) [] = stored_row (TMDLO.classes self) out).
Proof.
  rewrite infer_unfold. intros Hinf.
  match type of Hinf with bind ?loop _ = _ =>
    destruct loop as [rows|e] eqn:Hrun; [|discriminate] end.
  cbn [bind] in Hinf. injection Hinf as <-.
  destruct (infer_rows_inv self X rows Hrun) as (Hlen & Hrows & Hdone).
  cbn [ncols trows]. split; [reflexivity|]. split; [exact Hlen|].
  split.
  - unfold wf. cbn [ncols trows]. apply Forall_nth. intros i d Hi.
    rewrite (nth_indep rows d [] Hi). apply Hrows. lia.
  - intros v Hv. destruct (Hdone v Hv) as (out & Ec & _ & Er).
    now exists out.
Qed.

(** X10: [infer] returns exactly when, for every view below [views], the
    model has an encoder, [X] has an entry, and the encoder returns on it
    [classes] numbers or a single one. *)
Theorem X10_infer_defined_iff (self : TMDLO.t) (X : list (list R)) :
  (exists ev, TMDLO.infer self X = Ok ev)
  <-> (forall v, (v < TMDLO.views self)%nat ->
         exists out, call_view self X v = Ok out
           /\ (length out = TMDLO.classes self \/ length out = 1%nat)).
Proof.
  rewrite infer_unfold. split.
  - intros [ev Hinf] v Hv.
    match type of Hinf with bind ?loop _ = _ =>
      destruct loop as [rows|e] eqn:Hrun; [|discriminate] end.
    destruct (infer_rows_inv self X rows Hrun) as (_ & _ & Hdone).
    destruct (Hdone v Hv) as (out & Ec & Hs & _). now exists out.
  - intros Hall.
    destruct (infer_rows_ok self X Hall) as (rows & Hrun & _).
    rewrite Hrun. cbn [bind]. eexists. reflexivity.
Qed.

(** ** Building the model *)

Section Build.

(** A loop whose body can only raise [e], and does at some index, raises
    [e]. *)
Lemma for_loop_raises {A : Type} (l : list nat)
  (body : A -> nat -> result A) (acc : A) (e : error) (i : nat) :
  (forall acc j, In j l ->
     (exists a', body acc j = Ok a') \/ body acc j = Err e) ->
  In i l -> (forall acc, body acc i = Err e) ->
  for_loop l body acc = Err e.
Proof.
  revert acc. induction l as [|j l IH]; intros acc Hkind Hin Hbad;
    [contradiction|].
  cbn [for_loop].
  destruct (Hkind acc j (or_introl eq_refl)) as [[a' E] | E]; rewrite E;
    [|reflexivity].
  cbn [bind]. destruct Hin as [-> | Hin].
  - rewrite Hbad in E. discriminate.
  - apply IH; [|assumption|assumption].
    intros acc0 k Hk. apply Hkind. now right.
Qed.

Variables (classes views : nat) (lambda_con : R).
Variables (classifier_dims : list (list nat)) (p : nat -> nat -> LinearInit).

Let body := fun (cs : list Classifier.t) (i : nat) =>
  dims <- index classifier_dims i ;;
  c <- Classifier.init dims classes (p i) ;;
  Ok (cs ++ [c]).

Lemma build_body_ok (cs : list Classifier.t) (i : nat) :
  dims_ok classifier_dims i ->
  body cs i = Ok (cs ++ [built (nth i classifier_dims []) classes (p i)]).
Proof.
  intros [Hi Hne]. unfold body.
  rewrite (index_nth classifier_dims i [] Hi). cbn [bind].
  now rewrite init_built.
Qed.

Lemma build_body_err (cs : list Classifier.t) (i : nat) :
  ~ dims_ok classifier_dims i -> body cs i = Err IndexError.
Proof.
  intros Hbad. unfold body.
  destruct (le_lt_dec (length classifier_dims) i) as [Hle | Hlt].
  - now rewrite index_out.
  - rewrite (index_nth classifier_dims i [] Hlt). cbn [bind].
    destruct (nth i classifier_dims []) as [|d ds] eqn:E.
    + reflexivity.
    + exfalso. apply Hbad. split; [assumption|]. rewrite E. discriminate.
Qed.

Lemma dims_ok_dec (i : nat) :
  dims_ok classifier_dims i \/ ~ dims_ok classifier_dims i.
Proof.
  unfold dims_ok.
  destruct (le_lt_dec (length classifier_dims) i) as [Hle | Hlt];
    [right; intros [H _]; lia|].
  destruct (nth i classifier_dims []) as [|d ds];
    [right; intros [_ H]; now apply H|left].
  split; [assumption|discriminate].
Qed.

Lemma model_init_ok :
  (forall i, (i < views)%nat -> dims_ok classifier_dims i) ->
  TMDLO.init classes views lambda_con classifier_dims p =
  Ok (built_model classes views lambda_con classifier_dims p).
Proof.
  intros Hall. unfold TMDLO.init. fold body.
  rewrite (for_loop_collect _ body
             (fun i => built (nth i classifier_dims []) classes (p i))).
  - reflexivity.
  - intros acc i Hi. apply in_seq in Hi. apply build_body_ok.
    apply Hall. lia.
Qed.

Lemma model_init_err (i : nat) :
  (i < views)%nat -> ~ dims_ok classifier_dims i ->
  TMDLO.init classes views lambda_con classifier_dims p = Err IndexError.
Proof.
  intros Hi Hbad. unfold TMDLO.init. fold body.
  rewrite (for_loop_raises (range views) body [] IndexError i).
  - reflexivity.
  - intros acc j _. destruct (dims_ok_dec j) as [Hj | Hj].
    + left. eexists. now apply build_body_ok.
    + right. now apply build_body_err.
  - apply in_seq. lia.
  - intros acc. now apply build_body_err.
Qed.

Lemma model_init_inv (self : TMDLO.t) :
  TMDLO.init classes views lambda_con classifier_dims p = Ok self ->
  (forall i, (i < views)%nat -> dims_ok classifier_dims i)
  /\ self = built_model classes views lambda_con classifier_dims p.
Proof.
  intros Hinit.
  assert (Hall : forall i, (i < views)%nat -> dims_ok classifier_dims i).
  { intros i Hi. destruct (dims_ok_dec i) as [Hok | Hbad]; [assumption|].
    rewrite (model_init_err i Hi Hbad) in Hinit. discriminate. }
  split; [assumption|].
  rewrite (model_init_ok Hall) in Hinit. now injection Hinit.
Qed.

End Build.

(** X11: [TMDLO.__init__] builds one encoder per view when
    [classifier_dims] has a non-empty entry for each of the [views] views,
    keeping [classes], [views] and [lambda_con] as given; when some view has
    no entry, or an empty one, construction raises an [IndexError]. *)
Theorem X11_model_init (classes views : nat) (lambda_con : R)
  (classifier_dims : list (list nat)) (p : nat -> nat -> LinearInit) :
  ((forall i, (i < views)%nat -> dims_ok classifier_dims i) ->
   exists self,
     TMDLO.init classes views lambda_con classifier_dims p = Ok self
     /\ TMDLO.classes self = classes
     /\ TMDLO.views self = views
     /\ TMDLO.lambda_con self = lambda_con
     /\ length (TMDLO.Classifiers self) = views)
  /\ ((exists i, (i < views)%nat /\ ~ dims_ok classifier_dims i) ->
      TMDLO.init classes views lambda_con classifier_dims p
      = Err IndexError).
Proof.
  split.
  - intros Hall.
    exists (built_model classes views lambda_con classifier_dims p).
    split; [now apply model_init_ok|].
    unfold built_model. cbn. repeat split.
    unfold range. now rewrite length_map, length_seq.
  - intros (i & Hi & Hbad). now apply (model_init_err _ _ _ _ _ i).
Qed.

(** ** The forward pass of a built model *)

Section Valid.

Lemma positive_nonneg (ev : Tensor2) : positive ev -> nonneg ev.
Proof.
  unfold positive, nonneg. intros H.
  apply Forall_impl with (2 := H). intros r Hr.
  apply Forall_impl with (2 := Hr). intros x Hx. lra.
Qed.

Lemma stored_row_same (classes : nat) (out : list R) :
  length out = classes -> stored_row classes out = out.
Proof.
  intros H. unfold stored_row. now rewrite H, Nat.eqb_refl.
Qed.

Variables (classes views : nat) (lambda_con : R).
Variables (classifier_dims : list (list nat)) (p : nat -> nat -> LinearInit).
Variable X : list (list R).

Let self := built_model classes views lambda_con classifier_dims p.

Hypothesis Hdims : forall i, (i < views)%nat -> dims_ok classifier_dims i.
Hypothesis HX : forall v, (v < views)%nat ->
  (v < length X)%nat
  /\ length (nth v X []) = hd 0%nat (nth v classifier_dims []).

Lemma call_view_built (v : nat) :
  (v < views)%nat ->
  exists out, call_view self X v = Ok out
              /\ length out = classes
              /\ Forall (fun e => 0 < e) out.
Proof.
  intros Hv. destruct (HX v Hv) as [HvX Hlen].
  destruct (Hdims v Hv) as [_ Hne].
  unfold call_view, self, built_model. cbn [TMDLO.Classifiers].
  set (g := fun i => built (nth i classifier_dims []) classes (p i)).
  rewrite (index_nth (map g (range views)) v (g 0%nat))
    by (unfold range; now rewrite length_map, length_seq).
  rewrite map_nth. unfold range. rewrite seq_nth by assumption.
  cbn [bind Nat.add]. rewrite (index_nth X v [] HvX). cbn [bind].
  unfold g. now apply forward_built.
Qed.

Lemma infer_built :
  exists ev, TMDLO.infer self X = Ok ev
             /\ wf ev /\ positive ev
             /\ ncols ev = classes /\ nrows ev = views.
Proof.
  assert (Hall : forall v, (v < TMDLO.views self)%nat ->
            exists out, call_view self X v = Ok out
              /\ (length out = TMDLO.classes self \/ length out = 1%nat)).
  { intros v Hv. destruct (call_view_built v Hv) as (out & E & L & _).
    exists out. split; [assumption|now left]. }
  destruct (infer_rows_ok self X Hall) as (rows & Hrun & Hlen & Hrows & Hdone).
  exists (mkTensor2 classes rows).
  split; [rewrite infer_unfold, Hrun; reflexivity|].
  change (TMDLO.views self) with views in *.
  change (TMDLO.classes self) with classes in *.
  split; [|split; [|split; [reflexivity|exact Hlen]]].
  - unfold wf. cbn [ncols trows]. apply Forall_nth. intros i d Hi.
    rewrite (nth_indep rows d [] Hi). apply Hrows. lia.
  - unfold positive. cbn [trows]. apply Forall_nth. intros i d Hi.
    rewrite (nth_indep rows d [] Hi).
    destruct (Hdone i) as (out & E & _ & Er); [lia|].
    destruct (call_view_built i) as (out' & E' & L' & P'); [lia|].
    rewrite E in E'. injection E' as <-.
    rewrite Er, stored_row_same by assumption. exact P'.
Qed.

Lemma forward_built_model (y : Z) :
  (2 <= views)%nat -> (0 <= y < Z.of_nat classes)%Z -> 0 <= lambda_con ->
  exists l, TMDLO.forward self X y = Ok l
            /\ 0 <= l /\ l <= 2 + lambda_con * INR views.
Proof.
  intros H2 Hy Hlam.
  destruct infer_built as (ev & Hinf & Hwf & Hpos & Hc & Hr).
  pose proof (positive_nonneg ev Hpos) as Hn.
  unfold TMDLO.forward. rewrite Hinf. cbn [bind].
  unfold TMDLO.loss_of.
  change (TMDLO.views self) with views.
  change (TMDLO.classes self) with classes.
  change (TMDLO.lambda_con self) with lambda_con.
  rewrite (acc_loss_closed y classes Hy ev Hc Hn). cbn [bind].
  rewrite con_loss_eq_spec;
    [|assumption|lia|rewrite length_uniform_prior, Hc; apply bcastable_refl].
  cbn [bind]. eexists. split; [reflexivity|].
  destruct (acc_loss_bounds y ev classes Hc Hn Hy) as (A0 & A2 & _).
  destruct (con_loss_spec_range ev views classes Hwf Hn Hc Hr H2)
    as (C0 & C1).
  assert (0 <= INR views) by apply pos_INR.
  split; nra.
Qed.

End Valid.

(** X12: on a model built by [TMDLO.__init__], when every [X[v]] has the
    [classifier_dims[v][0]] features its encoder expects, [infer] returns a
    [views x classes] matrix none of whose entries is negative. *)
Theorem X12_infer_nonneg (classes views : nat) (lambda_con : R)
  (classifier_dims : list (list nat)) (p : nat -> nat -> LinearInit)
  (self : TMDLO.t) (X : list (list R)) :
  TMDLO.init classes views lambda_con classifier_dims p = Ok self ->
  (forall v, (v < views)%nat ->
     (v < length X)%nat
     /\ length (nth v X []) = hd 0%nat (nth v classifier_dims [])) ->
  exists ev, TMDLO.infer self X = Ok ev
             /\ wf ev /\ nonneg ev
             /\ ncols ev = classes /\ nrows ev = views.
Proof.
  intros Hinit HX.
  destruct (model_init_inv _ _ _ _ _ self Hinit) as [Hdims ->].
  destruct (infer_built classes views lambda_con classifier_dims p X
              Hdims HX) as (ev & Hinf & Hwf & Hpos & Hc & Hr).
  exists ev. split; [assumption|]. split; [assumption|].
  split; [now apply positive_nonneg|]. now split.
Qed.

(** X13: on such a model and input, with at least two views, a label in
    range and [lambda_con >= 0], [forward] returns a loss between [0] and
    [2 + lambda_con * views]. *)
Theorem X13_forward_returns_bounded_loss (classes views : nat)
  (lambda_con : R) (classifier_dims : list (list nat))
  (p : nat -> nat -> LinearInit) (self : TMDLO.t) (X : list (list R))
  (y : Z) :
  TMDLO.init classes views lambda_con classifier_dims p = Ok self ->
  (forall v, (v < views)%nat ->
     (v < length X)%nat
     /\ length (nth v X []) = hd 0%nat (nth v classifier_dims [])) ->
  (2 <= views)%nat ->
  (0 <= y < Z.of_nat classes)%Z ->
  0 <= lambda_con ->
  exists l, TMDLO.forward self X y = Ok l
            /\ 0 <= l /\ l <= 2 + lambda_con * INR views.
Proof.
  intros Hinit HX H2 Hy Hlam.
  destruct (model_init_inv _ _ _ _ _ self Hinit) as [Hdims ->].
  now apply forward_built_model.
Qed.

(** X14: a model of a single view can run [infer], but its [forward]
    raises a [ZeroDivisionError] whenever the encoders succeed and the
    label is in range. *)
Theorem X14_forward_one_view (self : TMDLO.t) (X : list (list R)) (y : Z)
  (ev : Tensor2) :
  TMDLO.views self = 1%nat ->
  TMDLO.infer self X = Ok ev ->
  (0 <= y < Z.of_nat (TMDLO.classes self))%Z ->
  TMDLO.forward self X y = Err ZeroDivisionError.
Proof.
  intros Hv Hinf Hy.
  assert (Hc : ncols ev = TMDLO.classes self).
  { rewrite infer_unfold in Hinf.
    match type of Hinf with bind ?loop _ = _ =>
      destruct loop as [rows|e]; [|discriminate] end.
    cbn [bind] in Hinf. now injection Hinf as <-. }
  unfold TMDLO.forward. rewrite Hinf. cbn [bind]. unfold TMDLO.loss_of.
  destruct (acc_loss_defined y ev (TMDLO.classes self) Hy) as [l El];
    [rewrite Hc; apply bcastable_refl|].
  rewrite El. cbn [bind]. rewrite Hv.
  rewrite con_loss_small;
    [reflexivity|rewrite length_uniform_prior, Hc; apply bcastable_refl|lia].
Qed.

(** ** Relabelling the views *)

Section Relabel.

Lemma loss_of_perm (self self' : TMDLO.t) (ev ev' : Tensor2) (y : Z) :
  TMDLO.classes self' = TMDLO.classes self ->
  TMDLO.views self' = TMDLO.views self ->
  TMDLO.lambda_con self' = TMDLO.lambda_con self ->
  ncols ev = ncols ev' -> nrows ev = TMDLO.views self ->
  Permutation (trows ev) (trows ev') ->
  TMDLO.loss_of self ev y = TMDLO.loss_of self' ev' y.
Proof.
  intros Hc Hv Hl Hcols Hrows HP. unfold TMDLO.loss_of.
  rewrite Hc, Hv, Hl.
  rewrite (acc_loss_of_sums y _ ev ev' (sum_dim0_perm ev ev' Hcols HP)).
  assert (Hrows' : nrows ev' = TMDLO.views self).
  { rewrite <- Hrows. unfold nrows. symmetry.
    now apply Permutation_length. }
  pose proof (con_loss_perm ev ev' (uniform_prior (TMDLO.classes self))
                (TMDLO.classes self) Hcols HP) as Hcon.
  rewrite Hrows, Hrows' in Hcon. now rewrite Hcon.
Qed.

Variables (self : TMDLO.t) (X : list (list R)).
Hypothesis HCs : length (TMDLO.Classifiers self) = TMDLO.views self.
Hypothesis HXs : length X = TMDLO.views self.

Let pairs := combine (TMDLO.Classifiers self) X.
Let d0 : Classifier.t * list R := (Classifier.mk [], []).

Lemma length_pairs : length pairs = TMDLO.views self.
Proof. unfold pairs. rewrite length_combine, HCs, HXs. apply Nat.min_id. Qed.

Lemma call_view_pair (v : nat) :
  (v < TMDLO.views self)%nat ->
  call_view self X v =
  Classifier.forward (fst (nth v pairs d0)) (snd (nth v pairs d0)).
Proof.
  intros Hv. unfold call_view, pairs, d0.
  rewrite combine_nth by (now rewrite HCs, HXs). cbn [fst snd].
  rewrite (index_nth _ v (Classifier.mk [])) by lia. cbn [bind].
  now rewrite (index_nth X v []) by lia.
Qed.

Lemma infer_pairs_inv (ev : Tensor2) :
  TMDLO.infer self X = Ok ev ->
  Forall (storable (TMDLO.classes self)) pairs
  /\ trows ev = map (row_of (TMDLO.classes self)) pairs
  /\ ncols ev = TMDLO.classes self.
Proof.
  rewrite infer_unfold. intros Hinf.
  match type of Hinf with bind ?loop _ = _ =>
    destruct loop as [rows|e] eqn:Hrun; [|discriminate] end.
  cbn [bind] in Hinf. injection Hinf as <-. cbn [trows ncols].
  destruct (infer_rows_inv self X rows Hrun) as (Hlen & _ & Hdone).
  split; [|split; [|reflexivity]].
  - apply Forall_nth. intros i d Hi. rewrite length_pairs in Hi.
    rewrite (nth_indep pairs d d0) by (now rewrite length_pairs).
    destruct (Hdone i Hi) as (out & Ec & Hs & _).
    rewrite call_view_pair in Ec by assumption. now exists out.
  - apply (nth_ext _ _ [] (row_of (TMDLO.classes self) d0)).
    + now rewrite length_map, length_pairs.
    + intros v Hv. rewrite Hlen in Hv. rewrite map_nth.
      destruct (Hdone v Hv) as (out & Ec & _ & Er).
      rewrite call_view_pair in Ec by assumption.
      unfold row_of. now rewrite Ec.
Qed.

Lemma infer_pairs_ok :
  Forall (storable (TMDLO.classes self)) pairs ->
  exists ev, TMDLO.infer self X = Ok ev.
Proof.
  intros Hall.
  assert (H : forall v, (v < TMDLO.views self)%nat ->
            exists out, call_view self X v = Ok out
              /\ (length out = TMDLO.classes self \/ length out = 1%nat)).
  { intros v Hv. rewrite call_view_pair by assumption.
    rewrite Forall_forall in Hall. apply Hall.
    apply nth_In. now rewrite length_pairs. }
  destruct (infer_rows_ok self X H) as (rows & Hrun & _).
  rewrite infer_unfold, Hrun. eexists. reflexivity.
Qed.

End Relabel.

(** X15: relabelling the views, that is permuting the encoders together
    with their inputs, does not change the loss [forward] returns. *)
Theorem X15_forward_relabel_views (self self' : TMDLO.t)
  (X X' : list (list R)) (y : Z) (l : R) :
  TMDLO.classes self' = TMDLO.classes self ->
  TMDLO.views self' = TMDLO.views self ->
  TMDLO.lambda_con self' = TMDLO.lambda_con self ->
  length (TMDLO.Classifiers self) = TMDLO.views self ->
  length X = TMDLO.views self ->
  length (TMDLO.Classifiers self') = TMDLO.views self' ->
  length X' = TMDLO.views self' ->
  Permutation (combine (TMDLO.Classifiers self) X)
              (combine (TMDLO.Classifiers self') X') ->
  TMDLO.forward self X y = Ok l ->
  TMDLO.forward self' X' y = Ok l.
Proof.
  intros Hc Hv Hl HCs HXs HCs' HXs' HP Hfwd.
  unfold TMDLO.forward in *.
  destruct (TMDLO.infer self X) as [ev|e] eqn:Hinf; [|discriminate].
  cbn [bind] in Hfwd.
  destruct (infer_pairs_inv self X HCs HXs ev Hinf) as (Hall & Hrows & Hcols).
  assert (Hall' : Forall (storable (TMDLO.classes self'))
                    (combine (TMDLO.Classifiers self') X')).
  { rewrite Hc. apply Forall_forall. intros cx Hin.
    rewrite Forall_forall in Hall. apply Hall.
    apply Permutation_in with (1 := Permutation_sym HP). exact Hin. }
  destruct (infer_pairs_ok self' X' HCs' HXs' Hall') as [ev' Hinf'].
  rewrite Hinf'. cbn [bind].
  destruct (infer_pairs_inv self' X' HCs' HXs' ev' Hinf')
    as (_ & Hrows' & Hcols').
  rewrite <- Hfwd. symmetry.
  apply loss_of_perm; try assumption.
  - now rewrite Hcols, Hcols', Hc.
  - unfold nrows. rewrite Hrows, length_map, length_combine, HCs, HXs.
    apply Nat.min_id.
  - rewrite Hrows, Hrows', Hc. now apply Permutation_map.
Qed.

(** ** Zero evidence, and one view *)

Section Special.

Lemma all_zero_nonneg (ev : Tensor2) : all_zero ev -> nonneg ev.
Proof.
  unfold all_zero, nonneg. intros H.
  apply Forall_impl with (2 := H). intros r Hr.
  apply Forall_impl with (2 := Hr). intros x Hx. lra.
Qed.

Lemma others_sum_ones (n y : nat) :
  (y < n)%nat -> others_sum n y (fun _ => 1) = INR n - 1.
Proof.
  intros Hy. pose proof (big_sum_split_label n y Hy (fun _ => 1)) as H.
  rewrite big_sum_const in H. lra.
Qed.

Lemma others_sum_ext (n y : nat) (f g : nat -> R) :
  (forall k, (k < n)%nat -> f k = g k) -> others_sum n y f = others_sum n y g.
Proof.
  intros H. apply big_sum_ext. intros k Hk.
  destruct (k =? y)%nat; [reflexivity|now apply H].
Qed.

Lemma sum_dim0_one_row (classes : nat) (e : list R) :
  length e = classes ->
  sum_dim0 (mkTensor2 classes [e]) = e.
Proof.
  intros Hlen.
  transitivity (map (fun j => nth j e 0) (range (length e)));
    [|apply map_nth_range].
  unfold sum_dim0, column. cbn [ncols trows map].
  rewrite Hlen. apply map_ext. intros j. simpl. lra.
Qed.

Lemma zipWith_repeat (f : R -> R -> R) (u : list R) (c : R) (n : nat) :
  length u = n -> zipWith f u (repeat c n) = map (fun x => f x c) u.
Proof.
  revert n. induction u as [|x u IH]; intros [|n] Hlen; simpl in *;
    try discriminate; [reflexivity|].
  injection Hlen as Hlen. now rewrite IH.
Qed.

Lemma map_on_repeat {A B : Type} (f : A -> B) (x : A) (n : nat) :
  map f (repeat x n) = repeat (f x) n.
Proof.
  induction n as [|n IH]; simpl; [reflexivity|]. now rewrite IH.
Qed.

End Special.

(** X16: under the uniform prior the projected probability of a view is
    the mean [(e + 1) / S] of its Dirichlet distribution; it is the fused
    prediction [acc_loss] computes for the matrix made of that view
    alone. *)
Theorem X16_uniform_projection_is_mean (classes : nat) (e : list R) :
  (1 <= classes)%nat ->
  length e = classes ->
  view_P (uniform_prior classes) classes e
  = map (fun x => (x + 1) / view_S e) e
  /\ fused_P (mkTensor2 classes [e])
     = view_P (uniform_prior classes) classes e.
Proof.
  intros H1 Hlen.
  assert (Hc : 0 < INR classes) by (apply lt_0_INR; lia).
  assert (HP : view_P (uniform_prior classes) classes e
               = map (fun x => (x + 1) / view_S e) e).
  { rewrite view_P_zip by assumption.
    unfold view_B, view_U, uniform_prior.
    rewrite map_map, map_on_repeat.
    rewrite zipWith_repeat by (now rewrite length_map).
    rewrite map_map. apply map_ext. intros x.
    unfold Rdiv. rewrite Rmult_1_l, <- Rmult_assoc, Rinv_l by lra. ring. }
  split; [exact HP|].
  rewrite HP. unfold fused_P, fused_S, fused_alpha.
  rewrite sum_dim0_one_row by assumption.
  rewrite map_map. reflexivity.
Qed.

(** X17: when every entry of the evidence matrix is zero, whatever the
    number of views, the accuracy loss of a label in range over
    [c = classes] classes is [(c - 1)(c + 2) / (c (c + 1))]. *)
Theorem X17_acc_loss_zero_evidence (y : Z) (ev : Tensor2) (classes : nat) :
  ncols ev = classes ->
  all_zero ev ->
  (0 <= y < Z.of_nat classes)%Z ->
  acc_loss y ev classes
  = Ok ((INR classes - 1) * (INR classes + 2)
        / (INR classes * (INR classes + 1))).
Proof.
  intros Hc Hz Hy.
  rewrite (acc_loss_closed y classes Hy ev Hc (all_zero_nonneg ev Hz)).
  f_equal.
  assert (Ha : forall k, alpha_of ev k = 1).
  { intros k. unfold alpha_of. rewrite column_all_zero by assumption. lra. }
  assert (HS : fused_S ev = INR classes).
  { rewrite fused_S_big_sum, Hc.
    rewrite (big_sum_ext _ _ (fun _ => 1)) by (intros k _; apply (Ha k)).
    rewrite big_sum_const. lra. }
  assert (Hyn : (Z.to_nat y < classes)%nat) by lia.
  unfold acc_numerator.
  rewrite (others_sum_ext classes _ (alpha_of ev) (fun _ => 1))
    by (intros; apply Ha).
  rewrite (others_sum_ext classes _ (fun k => alpha_of ev k * alpha_of ev k)
             (fun _ => 1))
    by (intros; rewrite Ha; lra).
  rewrite (others_sum_ones classes _ Hyn), HS.
  assert (0 < INR classes) by (apply lt_0_INR; lia).
  field. lra.
Qed.

(** ** The further properties on concrete inputs *)

Lemma wf_ev_1234 : wf ev_1234.
Proof. unfold wf, ev_1234; simpl. repeat constructor. Qed.

Lemma wf_ev_1212 : wf ev_1212.
Proof. unfold wf, ev_1212; simpl. repeat constructor. Qed.

Lemma nonneg_ev_1212 : nonneg ev_1212.
Proof. unfold nonneg, ev_1212; simpl. repeat constructor; lra. Qed.

Lemma dims_ok_12 (i : nat) : (i < 2)%nat -> dims_ok [[1%nat]; [2%nat]] i.
Proof.
  intros Hi. destruct i as [|[|i]]; [| |lia];
    (split; [simpl; lia|discriminate]).
Qed.

Lemma X_ab_fits (v : nat) :
  (v < 2)%nat ->
  (v < length X_ab)%nat
  /\ length (nth v X_ab []) = hd 0%nat (nth v [[1%nat]; [2%nat]] []).
Proof.
  intros Hv. destruct v as [|[|v]]; [| |lia]; (split; [simpl; lia|reflexivity]).
Qed.

Lemma init_model_ab :
  TMDLO.init 2 2 (1 / 2) [[1%nat]; [2%nat]] (fun _ _ => zero_init)
  = Ok model_ab.
Proof. reflexivity. Qed.

Lemma X1_acc_loss_defined_iff_witness :
  (exists l, acc_loss 1 ev_1234 2 = Ok l)
  /\ acc_loss 0 ev_three_cols 2 = Err RuntimeError
  /\ acc_loss 2 ev_1234 2 = Err RuntimeError.
Proof.
  destruct (X1_acc_loss_defined_iff 1 ev_1234 2) as [Hok _].
  destruct (X1_acc_loss_defined_iff 0 ev_three_cols 2) as [_ Hshape].
  destruct (X1_acc_loss_defined_iff 2 ev_1234 2) as [_ Hlabel].
  split; [|split].
  - apply Hok. split; [lia|reflexivity].
  - apply Hshape. intros [_ H]. discriminate.
  - apply Hlabel. intros [H _]. lia.
Defined.


Lemma X3_con_loss_errors_witness :
  con_loss ev_1234 [1 / 3; 1 / 3; 1 / 3] 2 2 = Err RuntimeError
  /\ con_loss ev_1234 [1 / 2; 1 / 2] 0 2 = Ok 0
  /\ con_loss ev_1234 [1 / 2; 1 / 2] 1 2 = Err ZeroDivisionError
  /\ con_loss ev_1234 [1 / 2; 1 / 2] 3 2 = Err IndexError
  /\ exists l, con_loss ev_1234 [1 / 2; 1 / 2] 2 2 = Ok l.
Proof.
  destruct (X3_con_loss_errors ev_1234 [1 / 3; 1 / 3; 1 / 3] 2 2)
    as [Hprior _].
  destruct (X3_con_loss_errors ev_1234 [1 / 2; 1 / 2] 0 2) as [_ H0].
  destruct (X3_con_loss_errors ev_1234 [1 / 2; 1 / 2] 1 2) as [_ H1].
  destruct (X3_con_loss_errors ev_1234 [1 / 2; 1 / 2] 3 2) as [_ H3].
  destruct (X3_con_loss_errors ev_1234 [1 / 2; 1 / 2] 2 2) as [_ H2].
  split; [|split; [|split; [|split]]].
  - apply Hprior. reflexivity.
  - apply H0; reflexivity.
  - apply H1; reflexivity.
  - apply H3; [reflexivity|lia|unfold nrows; simpl; lia].
  - apply H2; [reflexivity|lia|unfold nrows; simpl; lia].
Defined.

Lemma X5_opinion_invariants_witness :
  INR 2 <= view_S [1; 2]
  /\ vsum (view_B [1; 2]) + view_U 2 [1; 2] = 1
  /\ 0 < view_U 2 [1; 2] <= 1
  /\ (length [1 / 2; 1 / 2] = 2%nat -> vsum [1 / 2; 1 / 2] = 1 ->
      vsum (view_P [1 / 2; 1 / 2] 2 [1; 2]) = 1).
Proof.
  apply (X5_opinion_invariants 2 [1 / 2; 1 / 2] [1; 2]).
  - lia.
  - reflexivity.
  - repeat constructor; lra.
Defined.

Lemma X6_con_loss_range_witness :
  exists l, con_loss ev_1234 (uniform_prior 2) 2 2 = Ok l
            /\ 0 <= l /\ l <= INR 2.
Proof.
  apply (X6_con_loss_range ev_1234 2 2).
  - exact wf_ev_1234.
  - exact nonneg_ev_1234.
  - reflexivity.
  - reflexivity.
  - lia.
Defined.

Lemma X7_con_loss_zero_iff_agreement_witness :
  con_loss ev_1212 (uniform_prior 2) 2 2 = Ok 0
  <-> (forall m v, (m < 2)%nat -> (v < 2)%nat ->
         P_view ev_1212 (uniform_prior 2) 2 m
         = P_view ev_1212 (uniform_prior 2) 2 v).
Proof.
  apply (X7_con_loss_zero_iff_agreement ev_1212 2 2).
  - exact wf_ev_1212.
  - exact nonneg_ev_1212.
  - reflexivity.
  - reflexivity.
  - lia.
Defined.

Lemma X8_classifier_built_witness :
  Classifier.init [] 2 (fun _ => zero_init) = Err IndexError
  /\ exists c, Classifier.init [1%nat] 2 (fun _ => zero_init) = Ok c
       /\ (exists out, Classifier.forward c [0] = Ok out
                       /\ length out = 2%nat
                       /\ Forall (fun e => 0 <= e) out)
       /\ Classifier.forward c [0; 0] = Err RuntimeError.
Proof.
  destruct (X8_classifier_built [] 2 (fun _ => zero_init)) as [Hempty _].
  destruct (X8_classifier_built [1%nat] 2 (fun _ => zero_init))
    as [_ Hbuilt].
  split; [now apply Hempty|].
  destruct Hbuilt as (c & Hc & Hfwd); [discriminate|].
  exists c. split; [assumption|]. split.
  - apply (Hfwd [0]). reflexivity.
  - apply (Hfwd [0; 0]). simpl. lia.
Defined.

Lemma X9_infer_result_witness :
  ncols (mkTensor2 2 [out0; out0]) = TMDLO.classes model22
  /\ nrows (mkTensor2 2 [out0; out0]) = TMDLO.views model22
  /\ wf (mkTensor2 2 [out0; out0])
  /\ (forall v, (v < TMDLO.views model22)%nat ->
       exists out, call_view model22 X_two v = Ok out
         /\ nth v (trows (mkTensor2 2 [out0; out0])) []
            = stored_row (TMDLO.classes model22) out).
Proof.
  apply (X9_infer_result model22 X_two (mkTensor2 2 [out0; out0])).
  reflexivity.
Defined.

Lemma X11_model_init_witness :
  (exists self,
     TMDLO.init 2 2 (1 / 2) [[1%nat]; [2%nat]] (fun _ _ => zero_init)
     = Ok self
     /\ TMDLO.classes self = 2%nat
     /\ TMDLO.views self = 2%nat
     /\ TMDLO.lambda_con self = 1 / 2
     /\ length (TMDLO.Classifiers self) = 2%nat)
  /\ TMDLO.init 2 2 (1 / 2) [[1%nat]] (fun _ _ => zero_init)
     = Err IndexError
  /\ TMDLO.init 2 2 (1 / 2) [[1%nat]; []] (fun _ _ => zero_init)
     = Err IndexError.
Proof.
  destruct (X11_model_init 2 2 (1 / 2) [[1%nat]; [2%nat]]
              (fun _ _ => zero_init)) as [Hok _].
  destruct (X11_model_init 2 2 (1 / 2) [[1%nat]] (fun _ _ => zero_init))
    as [_ Hshort].
  destruct (X11_model_init 2 2 (1 / 2) [[1%nat]; []] (fun _ _ => zero_init))
    as [_ Hempty].
  split; [|split].
  - apply Hok. exact dims_ok_12.
  - apply Hshort. exists 1%nat. split; [lia|].
    intros [H _]. simpl in H. lia.
  - apply Hempty. exists 1%nat. split; [lia|].
    intros [_ H]. now apply H.
Defined.

Lemma X12_infer_nonneg_witness :
  exists ev, TMDLO.infer model_ab X_ab = Ok ev
             /\ wf ev /\ nonneg ev
             /\ ncols ev = 2%nat /\ nrows ev = 2%nat.
Proof.
  apply (X12_infer_nonneg 2 2 (1 / 2) [[1%nat]; [2%nat]]
           (fun _ _ => zero_init) model_ab X_ab).
  - reflexivity.
  - exact X_ab_fits.
Defined.

Lemma X13_forward_returns_bounded_loss_witness :
  exists l, TMDLO.forward model_ab X_ab 0 = Ok l
            /\ 0 <= l /\ l <= 2 + 1 / 2 * INR 2.
Proof.
  apply (X13_forward_returns_bounded_loss 2 2 (1 / 2) [[1%nat]; [2%nat]]
           (fun _ _ => zero_init) model_ab X_ab 0).
  - reflexivity.
  - exact X_ab_fits.
  - lia.
  - lia.
  - lra.
Defined.

Lemma X14_forward_one_view_witness :
  TMDLO.forward model_one X_one 0 = Err ZeroDivisionError.
Proof.
  apply (X14_forward_one_view model_one X_one 0 (mkTensor2 2 [out0])).
  - reflexivity.
  - reflexivity.
  - simpl. lia.
Defined.

Lemma forward_model_ab_ok : exists l, TMDLO.forward model_ab X_ab 0 = Ok l.
Proof.
  destruct (forward_built_model 2 2 (1 / 2) [[1%nat]; [2%nat]]
              (fun _ _ => zero_init) X_ab dims_ok_12 X_ab_fits 0)
    as (l & E & _); [lia|lia|lra|].
  exists l. exact E.
Qed.

Lemma X15_forward_relabel_views_witness :
  exists l, TMDLO.forward model_ab X_ab 0 = Ok l
            /\ TMDLO.forward model_ba X_ba 0 = Ok l.
Proof.
  destruct forward_model_ab_ok as [l E]. exists l. split; [exact E|].
  apply (X15_forward_relabel_views model_ab model_ba X_ab X_ba 0 l);
    try reflexivity.
  - apply perm_swap.
  - exact E.
Defined.

Lemma X16_uniform_projection_is_mean_witness :
  view_P (uniform_prior 2) 2 [1; 2]
  = map (fun x => (x + 1) / view_S [1; 2]) [1; 2]
  /\ fused_P (mkTensor2 2 [[1; 2]]) = view_P (uniform_prior 2) 2 [1; 2].
Proof.
  apply (X16_uniform_projection_is_mean 2 [1; 2]).
  - lia.
  - reflexivity.
Defined.

Lemma X17_acc_loss_zero_evidence_witness :
  acc_loss 0 ev_zero22 2
  = Ok ((INR 2 - 1) * (INR 2 + 2) / (INR 2 * (INR 2 + 1))).
Proof.
  apply (X17_acc_loss_zero_evidence 0 ev_zero22 2).
  - reflexivity.
  - unfold all_zero, ev_zero22; simpl. repeat constructor.
  - lia.
Defined.
